(** * poormanray.session: remote command execution over SSH

    A shallow embedding of [src/poormanray/session.py] and the properties
    of its execution protocol: the completion marker and its detection,
    the text injected into the [screen] session, the polling loop with its
    timeout, the detach path, and the handling of the SSH connection.

    Text is modelled as [string], read as the UTF-8 encoding of the Python
    [str]: encoding commutes with concatenation, and every character the
    program itself adds or searches for is ASCII, so that searching the
    encoded text finds what searching the decoded text finds. *)

From Stdlib Require Import ZArith NArith List String Ascii Bool Lia Arith.
From Stdlib Require Import Numbers.DecimalString Numbers.DecimalN.
Import ListNotations.

Open Scope list_scope.
Open Scope string_scope.

(** ** Text *)

Definition LF : ascii := "010"%char.
Definition CR : ascii := "013"%char.

Definition chr (c : ascii) : string := String c "".

(** [chars s]: the characters of [s], in order. *)
Definition chars : string -> list ascii := list_ascii_of_string.

(** Python's [needle in haystack] on [str]. *)
Fixpoint contains (needle haystack : string) : bool :=
  prefix needle haystack
  || match haystack with
     | "" => false
     | String _ rest => contains needle rest
     end.

(** Python's [s[:n]]. *)
Definition take (n : nat) (s : string) : string := substring 0 n s.

(** ** hashlib.md5

    The digest of RFC 1321 over bytes, on 32-bit words kept in [Z] with the
    wrap-around written out. *)

Module MD5.
Open Scope Z_scope.

Definition mask32 : Z := 0xffffffff.
Definition wrap32 (x : Z) : Z := Z.land x mask32.
Definition add32 (a b : Z) : Z := wrap32 (a + b).
Definition not32 (x : Z) : Z := Z.lxor x mask32.
Definition rotl32 (x n : Z) : Z :=
  Z.lor (wrap32 (Z.shiftl x n)) (Z.shiftr x (32 - n)).

Definition K : list Z :=
  [ 0xd76aa478; 0xe8c7b756; 0x242070db; 0xc1bdceee;
    0xf57c0faf; 0x4787c62a; 0xa8304613; 0xfd469501;
    0x698098d8; 0x8b44f7af; 0xffff5bb1; 0x895cd7be;
    0x6b901122; 0xfd987193; 0xa679438e; 0x49b40821;
    0xf61e2562; 0xc040b340; 0x265e5a51; 0xe9b6c7aa;
    0xd62f105d; 0x02441453; 0xd8a1e681; 0xe7d3fbc8;
    0x21e1cde6; 0xc33707d6; 0xf4d50d87; 0x455a14ed;
    0xa9e3e905; 0xfcefa3f8; 0x676f02d9; 0x8d2a4c8a;
    0xfffa3942; 0x8771f681; 0x6d9d6122; 0xfde5380c;
    0xa4beea44; 0x4bdecfa9; 0xf6bb4b60; 0xbebfbc70;
    0x289b7ec6; 0xeaa127fa; 0xd4ef3085; 0x04881d05;
    0xd9d4d039; 0xe6db99e5; 0x1fa27cf8; 0xc4ac5665;
    0xf4292244; 0x432aff97; 0xab9423a7; 0xfc93a039;
    0x655b59c3; 0x8f0ccc92; 0xffeff47d; 0x85845dd1;
    0x6fa87e4f; 0xfe2ce6e0; 0xa3014314; 0x4e0811a1;
    0xf7537e82; 0xbd3af235; 0x2ad7d2bb; 0xeb86d391 ].

Definition shifts : list Z :=
  [ 7; 12; 17; 22; 7; 12; 17; 22; 7; 12; 17; 22; 7; 12; 17; 22;
    5;  9; 14; 20; 5;  9; 14; 20; 5;  9; 14; 20; 5;  9; 14; 20;
    4; 11; 16; 23; 4; 11; 16; 23; 4; 11; 16; 23; 4; 11; 16; 23;
    6; 10; 15; 21; 6; 10; 15; 21; 6; 10; 15; 21; 6; 10; 15; 21 ].

(** Little-endian bytes of a word, and back. *)
Definition le_bytes (n : nat) (x : Z) : list Z :=
  map (fun i => Z.land (Z.shiftr x (8 * Z.of_nat i)) 0xff) (seq 0 n).

Definition le_word (bs : list Z) : Z :=
  fold_right (fun b acc => b + 256 * acc) 0 bs.

(** Padding: a one bit, zeros up to 56 modulo 64, the bit length on 64 bits. *)
Definition pad (msg : list Z) : list Z :=
  let len := Z.of_nat (List.length msg) in
  let zeros := Z.to_nat ((55 - len) mod 64) in
  (msg ++ [0x80] ++ repeat 0 zeros ++ le_bytes 8 ((8 * len) mod 2 ^ 64))%list.

Fixpoint blocks (n : nat) (bs : list Z) : list (list Z) :=
  match n with
  | O => []
  | S n' => firstn 64 bs :: blocks n' (skipn 64 bs)
  end.

Fixpoint words (n : nat) (bs : list Z) : list Z :=
  match n with
  | O => []
  | S n' => le_word (firstn 4 bs) :: words n' (skipn 4 bs)
  end.

Definition state : Type := Z * Z * Z * Z.

Definition round (M : list Z) (st : state) (i : nat) : state :=
  let '(A, B, C, D) := st in
  let zi := Z.of_nat i in
  let '(F, g) :=
    if zi <? 16 then (Z.lor (Z.land B C) (Z.land (not32 B) D), zi)
    else if zi <? 32 then
      (Z.lor (Z.land D B) (Z.land (not32 D) C), (5 * zi + 1) mod 16)
    else if zi <? 48 then (Z.lxor (Z.lxor B C) D, (3 * zi + 5) mod 16)
    else (Z.lxor C (Z.lor B (not32 D)), (7 * zi) mod 16) in
  let F' := add32 (add32 (add32 F A) (nth i K 0)) (nth (Z.to_nat g) M 0) in
  (D, add32 B (rotl32 F' (nth i shifts 0)), B, C).

Definition compress (st : state) (block : list Z) : state :=
  let M := words 16 block in
  let '(a0, b0, c0, d0) := st in
  let '(A, B, C, D) := fold_left (round M) (seq 0 64) st in
  (add32 a0 A, add32 b0 B, add32 c0 C, add32 d0 D).

Definition init : state := (0x67452301, 0xefcdab89, 0x98badcfe, 0x10325476).

Definition digest (msg : list Z) : list Z :=
  let padded := pad msg in
  let '(a, b, c, d) :=
    fold_left compress (blocks (List.length padded / 64) padded) init in
  (le_bytes 4 a ++ le_bytes 4 b ++ le_bytes 4 c ++ le_bytes 4 d)%list.

Definition hex_digits : list ascii := chars "0123456789abcdef".

Definition hex_digit (n : Z) : ascii :=
  nth (Z.to_nat (n mod 16)) hex_digits "0"%char.

Definition hex_byte (b : Z) : list ascii := [hex_digit (b / 16); hex_digit b].

Definition bytes_of (s : string) : list Z :=
  map (fun c => Z.of_N (N_of_ascii c)) (chars s).

(** [hashlib.md5(s.encode()).hexdigest()] *)
Definition hexdigest (s : string) : string :=
  string_of_list_ascii (flat_map hex_byte (digest (bytes_of s))).
End MD5.

(** ** The completion marker (session.py, lines 106, 116 and 120) *)

(** The characters [A-Za-z0-9_], which a regular expression reads as
    themselves. *)
Definition is_word (c : ascii) : bool :=
  let n := N_of_ascii c in
  ((48 <=? n) && (n <=? 57) || (65 <=? n) && (n <=? 90)
   || (97 <=? n) && (n <=? 122) || (n =? 95))%N.

Definition word (s : string) : Prop := Forall (fun c => is_word c = true) (chars s).

(** [hashlib.md5(command.encode()).hexdigest()[:12]] *)
Definition command_hash (command : string) : string :=
  take 12 (MD5.hexdigest command).

(** [f"CMD_COMPLETED_{command_hash[:20]}"] *)
Definition completion_marker (command : string) : string :=
  "CMD_COMPLETED_" ++ take 20 (command_hash command).

(** ** The completion scan (session.py, line 152)

    [re.search(r"\r?\n" + completion_marker + r"\r?\n", buffer)]: the
    pattern is built as text and compiled.  The fragment of the syntax the
    pattern uses is modelled: word characters, the escapes [\r] and [\n],
    and the postfix [?].  A pattern outside the fragment does not compile
    here. *)

Module Re.
Inductive token : Type :=
| TChar (c : ascii)
| TQuest.

Inductive atom : Type :=
| Lit (c : ascii)
| Opt (c : ascii).

Definition escape (c : ascii) : option ascii :=
  if (c =? "r")%char then Some CR
  else if (c =? "n")%char then Some LF
  else None.

Fixpoint lex (p : string) : option (list token) :=
  match p with
  | "" => Some []
  | String c rest =>
      if (c =? "\")%char then
        match rest with
        | String e rest' =>
            match escape e with
            | Some x => option_map (cons (TChar x)) (lex rest')
            | None => None
            end
        | "" => None
        end
      else if (c =? "?")%char then option_map (cons TQuest) (lex rest)
      else if is_word c then option_map (cons (TChar c)) (lex rest)
      else None
  end.

Fixpoint atoms (ts : list token) : option (list atom) :=
  match ts with
  | [] => Some []
  | TChar c :: rest =>
      match rest with
      | TQuest :: rest' => option_map (cons (Opt c)) (atoms rest')
      | _ => option_map (cons (Lit c)) (atoms rest)
      end
  | TQuest :: _ => None
  end.

(** [re.compile] *)
Definition compile (p : string) : option (list atom) :=
  match lex p with
  | Some ts => atoms ts
  | None => None
  end.

Definition starts_with (c : ascii) (s : string) : option string :=
  match s with
  | String d s' => if (c =? d)%char then Some s' else None
  | "" => None
  end.

(** Does the expression match a prefix of [s]?  The optional character is
    tried first and given up on failure, as the backtracking matcher does. *)
Fixpoint match_here (re : list atom) (s : string) : bool :=
  match re with
  | [] => true
  | Lit c :: re' =>
      match starts_with c s with
      | Some s' => match_here re' s'
      | None => false
      end
  | Opt c :: re' =>
      match starts_with c s with
      | Some s' => match_here re' s' || match_here re' s
      | None => match_here re' s
      end
  end.

Fixpoint search_from (re : list atom) (s : string) : bool :=
  match_here re s
  || match s with
     | "" => false
     | String _ s' => search_from re s'
     end.

(** [re.search(p, s)] as a truth value; [None] when [p] is outside the
    modelled fragment. *)
Definition search (p s : string) : option bool :=
  match compile p with
  | Some re => Some (search_from re s)
  | None => None
  end.
End Re.

Definition marker_pattern (completion_marker : string) : string :=
  "\r?\n" ++ completion_marker ++ "\r?\n".

(** The test of line 152.  The pattern always compiles
    ([marker_pattern_compiles] below), so the last branch is never taken. *)
Definition scan (buffer completion_marker : string) : bool :=
  match Re.search (marker_pattern completion_marker) buffer with
  | Some found => found
  | None => false
  end.

(** The expression the pattern compiles to. *)
Definition marker_re (m : string) : list Re.atom :=
  (Re.Opt CR :: Re.Lit LF :: map Re.Lit (chars m) ++ [Re.Opt CR; Re.Lit LF])%list.

(** The specification's reading of the scan: the token stands between two
    line breaks, each of them LF or CRLF. *)
Definition line_break (s : string) : Prop := s = chr LF \/ s = String CR (chr LF).

Definition on_own_line (token buffer : string) : Prop :=
  exists pre nl1 nl2 post,
    line_break nl1 /\ line_break nl2 /\
    buffer = pre ++ nl1 ++ token ++ nl2 ++ post.

(** ** The instance directory (poormanray.cli) *)

(** Modelled from the spec: [InstanceStatus] and [InstanceInfo] are declared
    in [poormanray/cli.py], which is not among the sources.  The
    specification gives the endpoint as "identifier, network address,
    lifecycle status (enumerated: pending, running, stopped, terminated,
    ...)"; [OTHER] stands for the statuses it leaves unnamed. *)
Inductive InstanceStatus : Type :=
| PENDING
| RUNNING
| STOPPED
| TERMINATED
| OTHER (name : string).

Definition InstanceStatus_eqb (a b : InstanceStatus) : bool :=
  match a, b with
  | PENDING, PENDING | RUNNING, RUNNING
  | STOPPED, STOPPED | TERMINATED, TERMINATED => true
  | OTHER x, OTHER y => (x =? y)%string
  | _, _ => false
  end.

Record InstanceInfo : Type := {
  instance_id : string;
  public_ip_address : string;
  state : InstanceStatus
}.

(** ** Session and SessionContent (session.py, lines 19-60) *)

Record SessionContent : Type := {
  stdout : string;
  stderr : string
}.

Record Session : Type := {
  private_key_path : option string;
  user : string;
  instance : InstanceInfo
}.

(** Truth value of [str | None] and of [int | None]. *)
Definition truthy_str (s : option string) : bool :=
  match s with
  | Some (String _ _) => true
  | _ => false
  end.

Definition truthy_int (n : option Z) : bool :=
  match n with
  | Some t => negb (t =? 0)%Z
  | None => false
  end.

(** ** The world outside: SSH, terminal, clock, logging

    Exceptions.  [ValueError] and [RuntimeError] are the two the program
    raises itself; [LibraryError name] is an exception raised inside a call
    to paramiko, the socket layer or the codec, whatever its class, and is
    kept apart from the former two.  All are instances of [Exception], which
    is what the [except] clause of line 167 catches. *)
Inductive exn : Type :=
| ValueError (msg : string)
| RuntimeError (msg : string)
| LibraryError (name : string).

(** What one pass of lines 143-144 finds on the channel: [recv_ready()] is
    false, or it is true and [recv(4096).decode("utf-8")] yields a chunk, or
    one of the calls raises. *)
Inductive poll_obs : Type :=
| NotReady
| Ready (chunk : string)
| PollRaises (name : string).

(** What the program does to the world, in order.  A connection is named by
    the rank of the [connect] call that opened it; a channel by its
    connection. *)
Inductive event : Type :=
| Connect (c : nat) (host username : string) (key_filename : option string)
| ConnectFailed (c : nat)
| Close (c : nat)
| Exec (c : nat) (command : string) (timeout : option Z) (get_pty : bool)
| Shell (c : nat) (width height : nat)
| Send (c : nat) (data : string)
| Recv (c : nat) (chunk : string)
| StdoutWrite (chunk : string)
| Sleep (milliseconds : nat)
| LogInfo (msg : string)
| LogWarning (msg : string).

(** The clock: [time.time()] returns a float, of which the program uses the
    comparison of line 156 and the text of line 116. *)
Class Clock (T : Type) : Type := {
  (** [elapsed_gt now start timeout] is [now - start > timeout] *)
  elapsed_gt : T -> T -> Z -> bool;
  (** [f"{t}"] *)
  time_str : T -> string
}.

(** The answers of the world, call by call. *)
Record Env (T : Type) : Type := {
  (** the [k]-th [client.connect]: raises (the exception is named), or
      succeeds *)
  on_connect : nat -> option string;
  (** [exec_command] on connection [c] and the two reads of [from_command]:
      raises, or yields the texts of stdout and stderr *)
  on_exec : nat -> string -> string + (string * string);
  (** [shutil.get_terminal_size()] *)
  terminal_size : nat * nat;
  (** [invoke_shell] and [resize_pty] on connection [c] *)
  on_shell : nat -> option string;
  (** the [k]-th [channel.send] *)
  on_send : nat -> option string;
  (** the [k]-th pass of the polling loop over the channel *)
  on_poll : nat -> poll_obs;
  (** the [k]-th [time.time()] *)
  clock : nat -> T
}.

Arguments on_connect {T} _ _.
Arguments on_exec {T} _ _ _.
Arguments terminal_size {T} _.
Arguments on_shell {T} _ _.
Arguments on_send {T} _ _.
Arguments on_poll {T} _ _.
Arguments clock {T} _ _.

Record World : Type := {
  trace : list event;
  connects : nat;
  sends : nat;
  polls : nat;
  clock_reads : nat
}.

Definition fresh : World :=
  {| trace := []; connects := 0; sends := 0; polls := 0; clock_reads := 0 |}.

Definition log (e : event) (w : World) : World :=
  {| trace := trace w ++ [e]; connects := connects w; sends := sends w;
     polls := polls w; clock_reads := clock_reads w |}.

(** ** Computations: state, exceptions, and a bound on the loop *)

Inductive outcome (A : Type) : Type :=
| Ret (a : A)
| Raise (e : exn)
| Diverge.

Arguments Ret {A} a.
Arguments Raise {A} e.
Arguments Diverge {A}.

Definition M (A : Type) : Type := World -> outcome A * World.

Definition ret {A : Type} (a : A) : M A := fun w => (Ret a, w).

Definition raise {A : Type} (e : exn) : M A := fun w => (Raise e, w).

Definition diverge {A : Type} : M A := fun w => (Diverge, w).

Definition bind {A B : Type} (m : M A) (k : A -> M B) : M B :=
  fun w =>
    match m w with
    | (Ret a, w') => k a w'
    | (Raise e, w') => (Raise e, w')
    | (Diverge, w') => (Diverge, w')
    end.

(** [try: m  except Exception as e: h e] *)
Definition try_except {A : Type} (m : M A) (h : exn -> M A) : M A :=
  fun w =>
    match m w with
    | (Raise e, w') => h e w'
    | r => r
    end.

Definition emit (e : event) : M unit := fun w => (Ret tt, log e w).

Declare Scope monad_scope.
Delimit Scope monad_scope with monad.
Notation "x <- m ;; k" := (bind m (fun x => k))
  (at level 61, m at next level, right associativity) : monad_scope.
Notation "m ;; k" := (bind m (fun _ => k))
  (at level 61, right associativity) : monad_scope.
Open Scope monad_scope.

(** ** The program *)

(** The key handed to [client.connect], lines 69-72: the configured path when
    it is truthy, none otherwise. *)
Definition key_filename_of (self : Session) : option string :=
  if truthy_str (private_key_path self) then private_key_path self else None.

(** The line that starts [command] in the session, lines 123-126, without
    the newline of line 129. *)
Definition command_line (command : string) (terminate : bool) : string :=
  command ++ "; echo '" ++ completion_marker command ++ "'"
  ++ (if terminate then "; screen -X quit" else "").

(** The specification's injection: the command, the echo of the token, the
    quit instruction when asked for, and one newline. *)
Definition spec_injection (command token : string) (terminate : bool) : string :=
  command ++ "; echo '" ++ token ++ "'"
  ++ (if terminate then "; screen -X quit" else "") ++ chr LF.

Section Protocol.
Context {T : Type} `{Clock T}.
Variable env : Env T.

(** *** Calls into the world *)

(** [Session.connect], lines 67-74 *)
Definition connect (self : Session) : M nat :=
  fun w =>
    let c := connects w in
    let w' := {| trace := trace w; connects := S c; sends := sends w;
                 polls := polls w; clock_reads := clock_reads w |} in
    match on_connect env c with
    | Some name => (Raise (LibraryError name), log (ConnectFailed c) w')
    | None =>
        (Ret c, log (Connect c (public_ip_address (instance self)) (user self)
                             (key_filename_of self)) w')
    end.

(** [client.close()] *)
Definition close (client : nat) : M unit := emit (Close client).

(** [client.exec_command(command, timeout, get_pty)] followed by
    [SessionContent.from_command], lines 31-41 *)
Definition exec_command (client : nat) (command : string)
           (timeout : option Z) (get_pty : bool) : M SessionContent :=
  match on_exec env client command with
  | inl name => raise (LibraryError name)
  | inr (out, err) =>
      emit (Exec client command timeout get_pty);;
      ret {| stdout := out; stderr := err |}
  end.

(** [Session.shell], lines 76-86 *)
Definition shell (self : Session) (client : nat) : M nat :=
  let '(term_width, term_height) := terminal_size env in
  match on_shell env client with
  | Some name => raise (LibraryError name)
  | None => emit (Shell client term_width term_height);; ret client
  end.

(** [channel.send(data)] *)
Definition send (channel : nat) (data : string) : M unit :=
  fun w =>
    let k := sends w in
    let w' := {| trace := trace w; connects := connects w; sends := S k;
                 polls := polls w; clock_reads := clock_reads w |} in
    match on_send env k with
    | Some name => (Raise (LibraryError name), w')
    | None => (Ret tt, log (Send channel data) w')
    end.

(** [channel.recv_ready()] and, when it is true,
    [channel.recv(4096).decode("utf-8")], lines 143-144 *)
Definition poll (channel : nat) : M (option string) :=
  fun w =>
    let k := polls w in
    let w' := {| trace := trace w; connects := connects w; sends := sends w;
                 polls := S k; clock_reads := clock_reads w |} in
    match on_poll env k with
    | NotReady => (Ret None, w')
    | Ready chunk => (Ret (Some chunk), log (Recv channel chunk) w')
    | PollRaises name => (Raise (LibraryError name), w')
    end.

(** [time.time()] *)
Definition time_time : M T :=
  fun w =>
    (Ret (clock env (clock_reads w)),
     {| trace := trace w; connects := connects w; sends := sends w;
        polls := polls w; clock_reads := S (clock_reads w) |}).

(** [time.sleep], in milliseconds *)
Definition sleep (milliseconds : nat) : M unit := emit (Sleep milliseconds).

Definition stdout_write (chunk : string) : M unit := emit (StdoutWrite chunk).
Definition logger_info (msg : string) : M unit := emit (LogInfo msg).
Definition logger_warning (msg : string) : M unit := emit (LogWarning msg).

(** *** Session.run_single, lines 88-92 *)

Definition run_single (self : Session) (command : string)
           (timeout : option Z) (get_pty : bool) : M SessionContent :=
  client <- connect self;;
  exec_command client command timeout get_pty.

(** *** Session.run_in_screen, lines 94-169 *)

(** [f"olmo-cookbook-{command_hash}-{time.time()}"] *)
Definition screen_name (command : string) (now : T) : string :=
  "olmo-cookbook-" ++ command_hash command ++ "-" ++ time_str now.

(** The condition of line 156: [timeout and time.time() - start_time > timeout].
    The clock is read only when [timeout] is truthy. *)
Definition timed_out (timeout : option Z) (start_time : T) : M bool :=
  match timeout with
  | Some t =>
      if (t =? 0)%Z then ret false
      else now <- time_time;; ret (elapsed_gt now start_time t)
  | None => ret false
  end.

(** One pass through the body of the [while True] of line 141, up to the
    sleep: the new buffer, and whether a [break] was reached. *)
Definition poll_iteration (channel : nat) (command completion_marker : string)
           (timeout : option Z) (start_time : T) (buffer : string)
  : M (bool * string) :=
  chunk <- poll channel;;
  match chunk with
  | Some chunk =>
      let buffer := buffer ++ chunk in
      stdout_write chunk;;
      if scan buffer completion_marker then ret (true, buffer)
      else
        expired <- timed_out timeout start_time;;
        if expired then
          logger_warning (chr LF ++ "Timeout waiting for command: " ++ command);;
          ret (true, buffer)
        else ret (false, buffer)
  | None =>
      expired <- timed_out timeout start_time;;
      if expired then
        logger_warning (chr LF ++ "Timeout waiting for command: " ++ command);;
        ret (true, buffer)
      else ret (false, buffer)
  end.

(** The loop of lines 141-161, cut off after [fuel] passes. *)
Fixpoint poll_loop (fuel : nat) (channel : nat) (command completion_marker : string)
         (timeout : option Z) (start_time : T) (buffer : string) : M string :=
  match fuel with
  | O => diverge
  | S fuel' =>
      r <- poll_iteration channel command completion_marker timeout start_time buffer;;
      let '(stop, buffer) := r in
      if stop then ret buffer
      else
        sleep 100;;
        poll_loop fuel' channel command completion_marker timeout start_time buffer
  end.

(** The detach keystroke, Ctrl+A then [d]. *)
Definition detach_keys : string := String "001"%char "d".

(** Lines 105-169: the session, once the probe has found the tool. *)
Definition screen_session (self : Session) (command : string) (detach : bool)
           (timeout : option Z) (terminate : bool) (fuel : nat) : M SessionContent :=
  let command_hash := command_hash command in
  (* [client] is still [None] when [connect] raises: the handler of
     line 168 closes nothing and the exception goes on *)
  client <- connect self;;
  try_except
    (logger_info ("Connected to " ++ public_ip_address (instance self));;
     channel <- shell self client;;
     now <- time_time;;
     let screen_name := "olmo-cookbook-" ++ command_hash ++ "-" ++ time_str now in
     send channel ("screen -S " ++ screen_name ++ chr LF);;
     sleep 100;;
     let completion_marker := "CMD_COMPLETED_" ++ take 20 command_hash in
     (if terminate then
        send channel (command ++ "; echo '" ++ completion_marker ++ "'; screen -X quit")
      else
        send channel (command ++ "; echo '" ++ completion_marker ++ "'"));;
     send channel (chr LF);;
     let buffer := "" in
     start_time <- time_time;;
     buffer <- (if detach then
                  sleep 1000;;
                  send channel detach_keys;;
                  ret buffer
                else
                  poll_loop fuel channel command completion_marker
                            timeout start_time buffer);;
     close client;;
     ret {| stdout := buffer; stderr := buffer |})
    (fun e => close client;; raise e).

(** Lines 101-103, the probe, and then the session. *)
Definition run_in_screen (self : Session) (command : string) (detach : bool)
           (timeout : option Z) (terminate : bool) (fuel : nat) : M SessionContent :=
  probe <- run_single self "which screen" None false;;
  if negb (contains "screen" (stdout probe)) then
    raise (RuntimeError "screen is not installed; cannot run in screen")
  else
    screen_session self command detach timeout terminate fuel.

(** *** Session.run, lines 171-187 *)

(** [timeout or 600] *)
Definition timeout_or_600 (timeout : option Z) : option Z :=
  if truthy_int timeout then timeout else Some 600%Z.

Definition run (self : Session) (command : string) (get_pty detach terminate : bool)
           (timeout : option Z) (fuel : nat) : M SessionContent :=
  if negb (InstanceStatus_eqb (state (instance self)) RUNNING) then
    raise (ValueError ("Instance " ++ instance_id (instance self) ++ " is not running"))
  else if detach then
    run_in_screen self command detach (timeout_or_600 timeout) terminate fuel
  else
    run_single self command timeout get_pty.
End Protocol.

Arguments connect {T} env self _.
Arguments exec_command {T} env client command timeout get_pty _.
Arguments run_single {T} env self command timeout get_pty _.

(** ** Reading a trace *)

Definition step_live (l : list nat) (e : event) : list nat :=
  match e with
  | Connect c _ _ _ => (l ++ [c])%list
  | Close c => remove Nat.eq_dec c l
  | _ => l
  end.

(** The connections open at the end of a trace. *)
Definition live (tr : list event) : list nat := fold_left step_live tr [].

(** The largest number of connections open at once along a trace. *)
Fixpoint peak_from (l : list nat) (tr : list event) : nat :=
  match tr with
  | [] => List.length l
  | e :: tr' => Nat.max (List.length l) (peak_from (step_live l e) tr')
  end.

Definition peak_live (tr : list event) : nat := peak_from [] tr.

Definition is_close (c : nat) (e : event) : bool :=
  match e with
  | Close c' => (c' =? c)%nat
  | _ => false
  end.

(** How many times connection [c] was closed. *)
Definition closes (c : nat) (tr : list event) : nat :=
  List.length (filter (is_close c) tr).

(** What was handed to [channel.send], in order. *)
Definition sent (tr : list event) : list string :=
  flat_map (fun e => match e with Send _ data => [data] | _ => [] end) tr.

(** What [channel.recv] returned, put together. *)
Definition received (tr : list event) : string :=
  fold_right (fun e acc => match e with Recv _ chunk => chunk ++ acc | _ => acc end) "" tr.

(** The events of the polling loop: reads of the channel, their echo on the
    standard output, sleeps, and the warning of the timeout. *)
Definition is_poll_event (e : event) : bool :=
  match e with
  | Recv _ _ | StdoutWrite _ | Sleep _ | LogWarning _ => true
  | _ => false
  end.

(** ** A sample world

    A clock that ticks in whole seconds and prints its readings as Python
    prints a float without fractional part. *)
#[export] Instance seconds : Clock N := {|
  elapsed_gt now start timeout := (timeout <? Z.of_N now - Z.of_N start)%Z;
  time_str t := NilEmpty.string_of_uint (N.to_uint t) ++ ".0"
|}.

(** A target on which every call succeeds: the probe prints [probe_out], the
    channel answers the polls with [answers], the clock reads [tick]. *)
Definition calm (probe_out : string) (answers : nat -> poll_obs) (tick : nat -> N) : Env N :=
  {| on_connect := fun _ => None;
     on_exec := fun _ _ => inr (probe_out, "");
     terminal_size := (80, 24);
     on_shell := fun _ => None;
     on_send := fun _ => None;
     on_poll := answers;
     clock := tick |}.

Definition host (status : InstanceStatus) : Session :=
  {| private_key_path := None;
     user := "ec2-user";
     instance := {| instance_id := "i-0abc"; public_ip_address := "10.0.0.7";
                    state := status |} |}.

(** A channel that is silent, then prints the output of [echo hello], then
    the marker of that command on a line of its own. *)
Definition answers (k : nat) : poll_obs :=
  match k with
  | 0 => NotReady
  | 1 => Ready ("hello" ++ chr LF)
  | 2 => Ready ("CMD_COMPLETED_cd18203adcdc" ++ String CR (chr LF))
  | _ => NotReady
  end.

(** A clock that advances by one second from one reading to the next. *)
Definition tick (k : nat) : N := (1700000000 + N.of_nat k)%N.

Definition demo : Env N := calm "/usr/bin/screen" answers tick.

(** A second target, whose clock is an hour ahead. *)
Definition later : Env N := calm "/usr/bin/screen" answers (fun k => (1700003600 + N.of_nat k)%N).

(** ** Properties of computations *)

(** A computation that only adds to the trace and does not raise
    [ValueError]. *)
Definition tame {A : Type} (m : M A) : Prop :=
  forall w r w',
    m w = (r, w') ->
    (exists evs, trace w' = (trace w ++ evs)%list)
    /\ (forall msg, r <> Raise (ValueError msg)).

(** A target without [screen]: [which] finds nothing and prints nothing on
    its standard output. *)
Definition bare : Env N := calm "" answers tick.

(** ** The polling loop, pass by pass

    What the loop meets, counted from the state of the world at its entry:
    [p] polls and [c] readings of the clock have been made before. *)

Section Passes.
Context {T : Type} `{Clock T}.
Variable env : Env T.

(** What the channel delivers in pass [k]; nothing when it is not ready. *)
Definition chunk_at (p k : nat) : string :=
  match on_poll env (p + k) with
  | Ready chunk => chunk
  | _ => ""
  end.

(** The buffer after [k] passes. *)
Fixpoint buffer_after (p : nat) (buffer : string) (k : nat) : string :=
  match k with
  | O => buffer
  | S k' => buffer_after p buffer k' ++ chunk_at p k'
  end.

(** Pass [k] receives a chunk that completes the marker on a line of its own. *)
Definition found_at (p : nat) (marker buffer : string) (k : nat) : bool :=
  match on_poll env (p + k) with
  | Ready _ => scan (buffer_after p buffer (S k)) marker
  | _ => false
  end.

(** A timeout is configured, and the elapsed time read in pass [k] exceeds it. *)
Definition expired_at (c : nat) (timeout : option Z) (start_time : T) (k : nat) : bool :=
  match timeout with
  | Some t => truthy_int timeout && elapsed_gt (clock env (c + k)) start_time t
  | None => false
  end.

Definition stops_at (p c : nat) (marker : string) (timeout : option Z)
           (start_time : T) (buffer : string) (k : nat) : bool :=
  found_at p marker buffer k || expired_at c timeout start_time k.

(** The channel raises in none of the passes. *)
Definition quiet (p : nat) : Prop :=
  forall k name, on_poll env (p + k) <> PollRaises name.

(** The world lets [run_in_screen] come to the loop: the probe finds
    [screen], both connections and the shell open, the three sends pass. *)
Definition starts_polling (w : World) : Prop :=
  on_connect env (connects w) = None
  /\ (exists out err,
        on_exec env (connects w) "which screen" = inr (out, err)
        /\ contains "screen" out = true)
  /\ on_connect env (S (connects w)) = None
  /\ on_shell env (S (connects w)) = None
  /\ on_send env (sends w) = None
  /\ on_send env (S (sends w)) = None
  /\ on_send env (S (S (sends w))) = None.

(** The world at the entry of the loop, when it started in [w]. *)
Definition polling_world (self : Session) (command : string) (terminate : bool)
           (w : World) : World :=
  let c0 := connects w in
  let c1 := S (connects w) in
  let ip := public_ip_address (instance self) in
  {| trace :=
       trace w
       ++ [ Connect c0 ip (user self) (key_filename_of self);
            Exec c0 "which screen" None false;
            Connect c1 ip (user self) (key_filename_of self);
            LogInfo ("Connected to " ++ ip);
            Shell c1 (fst (terminal_size env)) (snd (terminal_size env));
            Send c1 ("screen -S " ++ screen_name command (clock env (clock_reads w)) ++ chr LF);
            Sleep 100;
            Send c1 (command_line command terminate);
            Send c1 (chr LF) ];
     connects := S (S (connects w));
     sends := S (S (S (sends w)));
     polls := polls w;
     clock_reads := S (S (clock_reads w)) |}.

(** What [run_in_screen] does with the outcome of the loop, lines 164-169. *)
Definition finish_polling (c : nat) (r : outcome string * World) : outcome SessionContent * World :=
  match r with
  | (Ret buffer, w) => (Ret {| stdout := buffer; stderr := buffer |}, log (Close c) w)
  | (Raise e, w) => (Raise e, log (Close c) w)
  | (Diverge, w) => (Diverge, w)
  end.
End Passes.

(** A target whose command prints one line and then hangs. *)
Definition stalled : Env N :=
  calm "/usr/bin/screen"
       (fun k => match k with 0 => Ready ("hello" ++ chr LF) | _ => NotReady end)
       tick.



(** ** Further readings of texts and traces *)

(** How many times [c] occurs in [s]. *)
Fixpoint count_char (c : ascii) (s : string) : nat :=
  match s with
  | "" => 0
  | String d s' => (if (c =? d)%char then 1 else 0) + count_char c s'
  end.



(** ** The trace of the polling loop *)

(** What one pass leaves in the trace before it goes on or breaks off: the
    chunk received and its echo, when the channel was ready. *)
Definition pass_events (channel : nat) (obs : poll_obs) : list event :=
  match obs with
  | Ready chunk => [Recv channel chunk; StdoutWrite chunk]
  | _ => []
  end.

(** What [k] passes that go on leave in the trace, each followed by the
    sleep of line 161; [p] polls were made before. *)
Fixpoint loop_events {T : Type} (env : Env T) (channel p k : nat) : list event :=
  match k with
  | O => []
  | S k' =>
      loop_events env channel p k'
      ++ pass_events channel (on_poll env (p + k')) ++ [Sleep 100]
  end.

(** A target that accepts one connection and refuses the next. *)
Definition refusing : Env N :=
  {| on_connect := fun k => match k with 1 => Some "SSHException" | _ => None end;
     on_exec := fun _ _ => inr ("/usr/bin/screen", "");
     terminal_size := (80, 24);
     on_shell := fun _ => None;
     on_send := fun _ => None;
     on_poll := answers;
     clock := tick |}.

(** A target whose channel delivers one line and then breaks. *)
Definition breaking : Env N :=
  calm "/usr/bin/screen"
       (fun k => match k with
                 | 0 => Ready ("hello" ++ chr LF)
                 | _ => PollRaises "socket.error"
                 end)
       tick.


Lemma append_assoc (a b c : string) : (a ++ b) ++ c = a ++ (b ++ c).
Proof. induction a as [|x a IH]; simpl; [reflexivity | now rewrite IH]. Qed.

Lemma append_nil_r (a : string) : a ++ "" = a.
Proof. induction a as [|x a IH]; simpl; [reflexivity | now rewrite IH]. Qed.

Lemma append_inv_head (a b c : string) : a ++ b = a ++ c -> b = c.
Proof. induction a as [|x a IH]; simpl; intros H; [exact H | injection H; auto]. Qed.

Lemma chars_append (a b : string) : chars (a ++ b) = (chars a ++ chars b)%list.
Proof. induction a as [|x a IH]; simpl; [reflexivity | now rewrite IH]. Qed.

Example md5_empty : MD5.hexdigest "" = "d41d8cd98f00b204e9800998ecf8427e".
Proof. vm_compute. reflexivity. Qed.

Example md5_abc : MD5.hexdigest "abc" = "900150983cd24fb0d6963f7d28e17f72".
Proof. vm_compute. reflexivity. Qed.

Example md5_which_screen :
  MD5.hexdigest "which screen" = "230ffa664ff5e97491a28eb3af72cdd6".
Proof. vm_compute. reflexivity. Qed.

Example md5_two_blocks :
  MD5.hexdigest "xxxxxxxxxxxxxxxxxxxxxxxxxxxxxxxxxxxxxxxxxxxxxxxxxxxxxxxx"
  = "668a72d5ba17f08e62dabcafad6db14b".
Proof. vm_compute. reflexivity. Qed.

Example scan_lf : scan ("$ " ++ chr LF ++ "CMD_COMPLETED_0123456789ab" ++ chr LF)
                       "CMD_COMPLETED_0123456789ab" = true.
Proof. reflexivity. Qed.

Example scan_crlf :
  scan ("x" ++ String CR (chr LF) ++ "CMD_COMPLETED_0123456789ab" ++ String CR (chr LF) ++ "$")
       "CMD_COMPLETED_0123456789ab" = true.
Proof. reflexivity. Qed.

Example scan_echoed_command :
  scan ("$ sleep 1; echo 'CMD_COMPLETED_0123456789ab'; screen -X quit" ++ chr LF)
       "CMD_COMPLETED_0123456789ab" = false.
Proof. reflexivity. Qed.

(** ** The completion marker is made of word characters *)

Lemma chars_string_of_list (l : list ascii) : chars (string_of_list_ascii l) = l.
Proof. apply list_ascii_of_string_of_list_ascii. Qed.

Lemma hex_digit_word (n : Z) : is_word (MD5.hex_digit n) = true.
Proof.
  unfold MD5.hex_digit.
  assert (Hall : Forall (fun c => is_word c = true) MD5.hex_digits)
    by (repeat constructor).
  destruct (nth_in_or_default (Z.to_nat (n mod 16)) MD5.hex_digits "0"%char) as [Hin | ->].
  - rewrite Forall_forall in Hall. now apply Hall.
  - reflexivity.
Qed.

Lemma hexdigest_word (s : string) : word (MD5.hexdigest s).
Proof.
  unfold word, MD5.hexdigest. rewrite chars_string_of_list.
  induction (MD5.digest (MD5.bytes_of s)) as [|b bs IH]; simpl.
  - constructor.
  - repeat constructor; auto using hex_digit_word.
Qed.

Lemma substring_word (n : nat) (s : string) : word s -> word (substring 0 n s).
Proof.
  unfold word. revert n.
  induction s as [|c s IH]; intros [|n] Hs; simpl; try constructor.
  - now inversion Hs.
  - apply IH. now inversion Hs.
Qed.

Lemma append_word (a b : string) : word a -> word b -> word (a ++ b).
Proof.
  unfold word. rewrite chars_append. intros Ha Hb. now apply Forall_app.
Qed.

Lemma completion_marker_word (command : string) : word (completion_marker command).
Proof.
  unfold completion_marker, command_hash, take.
  apply append_word.
  - repeat constructor.
  - do 2 apply substring_word. apply hexdigest_word.
Qed.

Lemma hexdigest_length (s : string) : length (MD5.hexdigest s) = 32.
Proof.
  unfold MD5.hexdigest, MD5.digest.
  destruct (fold_left MD5.compress _ MD5.init) as [[[a b] c] d].
  reflexivity.
Qed.

Lemma substring_length (n : nat) (s : string) :
  n <= length s -> length (substring 0 n s) = n.
Proof.
  revert n. induction s as [|c s IH]; intros [|n] Hn; simpl in *; try lia.
  rewrite IH; lia.
Qed.

Lemma substring_all (n : nat) (s : string) : length s <= n -> substring 0 n s = s.
Proof.
  revert n. induction s as [|c s IH]; intros [|n] Hn; simpl in *; try lia; try reflexivity.
  rewrite IH; [reflexivity | lia].
Qed.

Lemma command_hash_length (command : string) : length (command_hash command) = 12.
Proof.
  unfold command_hash, take. apply substring_length. rewrite hexdigest_length. lia.
Qed.

(** [command_hash[:20]] is the whole of the twelve characters. *)
Lemma completion_marker_eq (command : string) :
  completion_marker command = "CMD_COMPLETED_" ++ command_hash command.
Proof.
  unfold completion_marker, take. rewrite substring_all; [reflexivity|].
  rewrite command_hash_length. lia.
Qed.

Example completion_marker_echo_hello :
  completion_marker "echo hello" = "CMD_COMPLETED_cd18203adcdc".
Proof. vm_compute. reflexivity. Qed.

(** ** The scan *)

Lemma word_not_special (c : ascii) :
  is_word c = true -> (c =? "\")%char = false /\ (c =? "?")%char = false.
Proof.
  intros Hc. split.
  - destruct (Ascii.eqb_spec c "\"%char) as [-> | _]; [discriminate | reflexivity].
  - destruct (Ascii.eqb_spec c "?"%char) as [-> | _]; [discriminate | reflexivity].
Qed.

Lemma lex_word (m rest : string) :
  word m ->
  Re.lex (m ++ rest) = option_map (app (map Re.TChar (chars m))) (Re.lex rest).
Proof.
  unfold word. induction m as [|c m IH]; intros Hm; simpl.
  - now destruct (Re.lex rest).
  - inversion Hm as [|? ? Hc Hm']; subst.
    destruct (word_not_special c Hc) as [-> ->]. rewrite Hc.
    rewrite (IH Hm'). now destruct (Re.lex rest).
Qed.

Lemma atoms_lits (cs : list ascii) (x : ascii) (r : list Re.token) :
  Re.atoms (map Re.TChar cs ++ Re.TChar x :: r)%list
  = option_map (app (map Re.Lit cs)) (Re.atoms (Re.TChar x :: r)).
Proof.
  remember (Re.atoms (Re.TChar x :: r)) as tail eqn:Htail.
  induction cs as [|c cs IH].
  - simpl app. rewrite <- Htail. now destruct tail.
  - assert (Hstep : Re.atoms (Re.TChar c :: (map Re.TChar cs ++ Re.TChar x :: r))%list
                    = option_map (cons (Re.Lit c))
                        (Re.atoms (map Re.TChar cs ++ Re.TChar x :: r)%list))
      by (destruct cs; reflexivity).
    change (map Re.TChar (c :: cs) ++ Re.TChar x :: r)%list
      with (Re.TChar c :: (map Re.TChar cs ++ Re.TChar x :: r))%list.
    rewrite Hstep, IH. now destruct tail.
Qed.

Lemma lex_marker_pattern (m : string) :
  word m ->
  Re.lex (marker_pattern m)
  = Some (Re.TChar CR :: Re.TQuest
            :: (map Re.TChar (LF :: chars m)
                ++ [Re.TChar CR; Re.TQuest; Re.TChar LF]))%list.
Proof.
  intros Hm. unfold marker_pattern.
  change ("\r?\n" ++ m ++ "\r?\n")
    with (String "\" (String "r" (String "?" (String "\" (String "n" (m ++ "\r?\n")))))).
  cbn [Re.lex]. cbn [Ascii.eqb Bool.eqb Re.escape].
  rewrite (lex_word m "\r?\n" Hm). reflexivity.
Qed.

Lemma marker_pattern_compiles (m : string) :
  word m -> Re.compile (marker_pattern m) = Some (marker_re m).
Proof.
  intros Hm. unfold Re.compile. rewrite (lex_marker_pattern m Hm).
  cbn [Re.atoms]. rewrite (atoms_lits (LF :: chars m) CR). reflexivity.
Qed.

Lemma scan_search (buffer m : string) :
  word m -> scan buffer m = Re.search_from (marker_re m) buffer.
Proof.
  intros Hm. unfold scan, Re.search. now rewrite (marker_pattern_compiles m Hm).
Qed.

Lemma starts_with_Some (c : ascii) (s s' : string) :
  Re.starts_with c s = Some s' <-> s = String c s'.
Proof.
  destruct s as [|d s]; simpl.
  - split; discriminate.
  - destruct (Ascii.eqb_spec c d) as [-> | Hne].
    + split; intros Heq; injection Heq as ->; reflexivity.
    + split; [discriminate|]. intros Heq. injection Heq as Hd _.
      now contradiction Hne.
Qed.

Lemma match_lit (c : ascii) (re : list Re.atom) (s : string) :
  Re.match_here (Re.Lit c :: re) s = true
  <-> exists s', s = String c s' /\ Re.match_here re s' = true.
Proof.
  cbn [Re.match_here]. destruct (Re.starts_with c s) as [s1|] eqn:Hs.
  - apply starts_with_Some in Hs. subst s. split.
    + intros Hm. now exists s1.
    + intros (s' & Heq & Hm). now injection Heq as <-.
  - split; [discriminate|]. intros (s' & Heq & _).
    apply starts_with_Some in Heq. congruence.
Qed.

Lemma match_opt (c : ascii) (re : list Re.atom) (s : string) :
  Re.match_here (Re.Opt c :: re) s = true
  <-> (exists s', s = String c s' /\ Re.match_here re s' = true)
      \/ Re.match_here re s = true.
Proof.
  cbn [Re.match_here]. destruct (Re.starts_with c s) as [s1|] eqn:Hs.
  - apply starts_with_Some in Hs. subst s. rewrite orb_true_iff. split.
    + intros [Hm | Hm]; [left; now exists s1 | now right].
    + intros [(s' & Heq & Hm) | Hm]; [left; now injection Heq as <- | now right].
  - split; [now right|]. intros [(s' & Heq & _) | Hm]; [|exact Hm].
    apply starts_with_Some in Heq. congruence.
Qed.

Lemma match_lits (m : string) (re : list Re.atom) (s : string) :
  Re.match_here (map Re.Lit (chars m) ++ re)%list s = true
  <-> exists s', s = m ++ s' /\ Re.match_here re s' = true.
Proof.
  revert s. induction m as [|c m IH]; intros s.
  - simpl. split; [intros Hm; now exists s | now intros (s' & -> & Hm)].
  - change (map Re.Lit (chars (String c m)) ++ re)%list
      with (Re.Lit c :: (map Re.Lit (chars m) ++ re))%list.
    rewrite match_lit. split.
    + intros (s1 & -> & Hm). apply IH in Hm as (s' & -> & Hm). now exists s'.
    + intros (s' & -> & Hm). exists (m ++ s'). split; [reflexivity|].
      apply IH. now exists s'.
Qed.

(** [\r?\n] at the head of an expression takes a line break, LF or CRLF. *)
Lemma match_line_break (re : list Re.atom) (s : string) :
  Re.match_here (Re.Opt CR :: Re.Lit LF :: re) s = true
  <-> exists nl s', line_break nl /\ s = nl ++ s' /\ Re.match_here re s' = true.
Proof.
  rewrite match_opt. split.
  - intros [(s1 & -> & Hm) | Hm].
    + apply match_lit in Hm as (s' & -> & Hm).
      exists (String CR (chr LF)), s'. repeat split; [now right | exact Hm].
    + apply match_lit in Hm as (s' & -> & Hm).
      exists (chr LF), s'. repeat split; [now left | exact Hm].
  - intros (nl & s' & [-> | ->] & -> & Hm).
    + right. apply match_lit. now exists s'.
    + left. exists (chr LF ++ s'). split; [reflexivity|].
      apply match_lit. now exists s'.
Qed.

Lemma match_marker_re (m s : string) :
  Re.match_here (marker_re m) s = true
  <-> exists nl1 nl2 post,
        line_break nl1 /\ line_break nl2 /\ s = nl1 ++ m ++ nl2 ++ post.
Proof.
  unfold marker_re. rewrite match_line_break. split.
  - intros (nl1 & s1 & Hnl1 & -> & Hm).
    apply match_lits in Hm as (s2 & -> & Hm).
    apply match_line_break in Hm as (nl2 & post & Hnl2 & -> & _).
    now exists nl1, nl2, post.
  - intros (nl1 & nl2 & post & Hnl1 & Hnl2 & ->).
    exists nl1, (m ++ nl2 ++ post). repeat split; [exact Hnl1|].
    apply match_lits. exists (nl2 ++ post). split; [reflexivity|].
    apply match_line_break. now exists nl2, post.
Qed.

Lemma search_from_iff (re : list Re.atom) (s : string) :
  Re.search_from re s = true
  <-> exists pre rest, s = pre ++ rest /\ Re.match_here re rest = true.
Proof.
  induction s as [|c s IH]; cbn [Re.search_from]; rewrite orb_true_iff.
  - split.
    + intros [Hm | Hm]; [now exists "", "" | discriminate].
    + intros (pre & rest & Heq & Hm). left.
      destruct pre; [simpl in Heq; now subst rest | discriminate].
  - split.
    + intros [Hm | Hm].
      * now exists "", (String c s).
      * apply IH in Hm as (pre & rest & -> & Hm). now exists (String c pre), rest.
    + intros (pre & rest & Heq & Hm). destruct pre as [|d pre]; simpl in Heq.
      * left. now subst rest.
      * right. injection Heq as _ ->. apply IH. now exists pre, rest.
Qed.

Lemma scan_word_iff (buffer m : string) :
  word m -> scan buffer m = true <-> on_own_line m buffer.
Proof.
  intros Hm. rewrite (scan_search buffer m Hm), search_from_iff. unfold on_own_line.
  split.
  - intros (pre & rest & -> & Hmatch).
    apply match_marker_re in Hmatch as (nl1 & nl2 & post & H1 & H2 & ->).
    now exists pre, nl1, nl2, post.
  - intros (pre & nl1 & nl2 & post & H1 & H2 & ->).
    exists pre, (nl1 ++ m ++ nl2 ++ post). split; [reflexivity|].
    apply match_marker_re. now exists nl1, nl2, post.
Qed.

(** C1.  The completion check of the polling loop, [re.search] of line 152
    on the accumulated buffer and the completion marker derived from the
    command, succeeds exactly when the buffer holds the marker with a line
    break, LF or CRLF, right before it and a line break, LF or CRLF, right
    after it; where the marker occurs without these boundaries only, the
    check fails. *)
Theorem scan_iff_on_own_line (command buffer : string) :
  (scan buffer (completion_marker command) = true
   <-> on_own_line (completion_marker command) buffer)
  /\ (~ on_own_line (completion_marker command) buffer
      -> scan buffer (completion_marker command) = false).
Proof.
  pose proof (scan_word_iff buffer _ (completion_marker_word command)) as Hiff.
  split; [exact Hiff|].
  intros Hno. destruct (scan buffer (completion_marker command)); [|reflexivity].
  exfalso. apply Hno, Hiff. reflexivity.
Qed.

(** ** Traces of the polling loop *)

Lemma received_app (a b : list event) : received (a ++ b) = received a ++ received b.
Proof.
  induction a as [|e a IH]; simpl; [reflexivity|].
  destruct e; auto. rewrite IH. now rewrite append_assoc.
Qed.

Section LoopTraces.
Context {T : Type} `{Clock T}.
Variable env : Env T.

Lemma timed_out_world (timeout : option Z) (start : T) (w : World) :
  exists b w', timed_out env timeout start w = (Ret b, w')
               /\ trace w' = trace w /\ connects w' = connects w
               /\ sends w' = sends w /\ polls w' = polls w.
Proof.
  unfold timed_out. destruct timeout as [t|].
  - destruct (t =? 0)%Z.
    + now exists false, w.
    + eexists _, _. split; [reflexivity|]. cbn. auto.
  - now exists false, w.
Qed.

Lemma poll_iteration_events channel command marker timeout start b w r w' :
  poll_iteration env channel command marker timeout start b w = (r, w') ->
  exists evs,
    trace w' = (trace w ++ evs)%list
    /\ Forall (fun e => is_poll_event e = true) evs
    /\ connects w' = connects w /\ sends w' = sends w
    /\ forall stop b', r = Ret (stop, b') -> b' = b ++ received evs.
Proof.
  unfold poll_iteration, bind, poll, stdout_write, logger_warning, emit, ret.
  destruct (on_poll env (polls w)) as [|chunk|e] eqn:Hpoll.
  - match goal with |- context [timed_out env timeout start ?w0] =>
      destruct (timed_out_world timeout start w0) as (x & w1 & -> & Ht & Hc & Hs & _)
    end.
    cbn in Ht, Hc, Hs. destruct x; intros Heq; injection Heq as <- <-.
    + eexists [_]. cbn. rewrite Ht, Hc, Hs. repeat split; auto.
      intros stop b' Hr. injection Hr as _ <-. now rewrite append_nil_r.
    + exists []. rewrite Ht, Hc, Hs, app_nil_r. repeat split; auto.
      intros stop b' Hr. injection Hr as _ <-. now rewrite append_nil_r.
  - destruct (scan (b ++ chunk) marker).
    + intros Heq; injection Heq as <- <-. eexists [_; _]. cbn.
      rewrite <- app_assoc. repeat split; auto.
      intros stop b' Hr. injection Hr as _ <-. now rewrite append_nil_r.
    + match goal with |- context [timed_out env timeout start ?w0] =>
        destruct (timed_out_world timeout start w0) as (x & w1 & -> & Ht & Hc & Hs & _)
      end.
      cbn in Ht, Hc, Hs. destruct x; intros Heq; injection Heq as <- <-.
      * eexists [_; _; _]. cbn. rewrite Ht, Hc, Hs, <- !app_assoc. repeat split; auto.
        intros stop b' Hr. injection Hr as _ <-. now rewrite append_nil_r.
      * eexists [_; _]. rewrite Ht, Hc, Hs, <- !app_assoc. repeat split; auto.
        intros stop b' Hr. injection Hr as _ <-. cbn. now rewrite append_nil_r.
  - intros Heq; injection Heq as <- <-. exists []. cbn. rewrite app_nil_r.
    repeat split; auto. discriminate.
Qed.

Lemma poll_loop_events fuel channel command marker timeout start b w r w' :
  poll_loop env fuel channel command marker timeout start b w = (r, w') ->
  exists evs,
    trace w' = (trace w ++ evs)%list
    /\ Forall (fun e => is_poll_event e = true) evs
    /\ connects w' = connects w /\ sends w' = sends w
    /\ forall b', r = Ret b' -> b' = b ++ received evs.
Proof.
  revert b w. induction fuel as [|fuel IH]; intros b w; cbn [poll_loop].
  - intros Heq; injection Heq as <- <-. exists []. rewrite app_nil_r.
    repeat split; auto. discriminate.
  - unfold bind at 1.
    destruct (poll_iteration env channel command marker timeout start b w)
      as [r1 w1] eqn:Hit.
    apply poll_iteration_events in Hit as (evs1 & Ht1 & He1 & Hc1 & Hs1 & Hb1).
    destruct r1 as [[stop b1]|e|].
    + specialize (Hb1 stop b1 eq_refl). destruct stop.
      * intros Heq; injection Heq as <- <-. exists evs1. repeat split; auto.
        intros b' Hr. now injection Hr as <-.
      * unfold bind, sleep, emit. intros Hloop.
        apply IH in Hloop as (evs2 & Ht2 & He2 & Hc2 & Hs2 & Hb2).
        cbn in Ht2, Hc2, Hs2.
        exists (evs1 ++ Sleep 100 :: evs2)%list.
        rewrite Ht2, Ht1, Hc2, Hc1, Hs2, Hs1, <- !app_assoc. repeat split; auto.
        -- apply Forall_app. split; [exact He1 | now constructor].
        -- intros b' Hr. rewrite (Hb2 b' Hr), Hb1, received_app, append_assoc.
           reflexivity.
    + intros Heq; injection Heq as <- <-. exists evs1. repeat split; auto. discriminate.
    + intros Heq; injection Heq as <- <-. exists evs1. repeat split; auto. discriminate.
Qed.
End LoopTraces.

(** ** Inversion of the steps of a computation *)

Lemma bind_ret_inv {A B : Type} (m : M A) (k : A -> M B) w b w' :
  bind m k w = (Ret b, w') ->
  exists a w1, m w = (Ret a, w1) /\ k a w1 = (Ret b, w').
Proof.
  unfold bind. destruct (m w) as [[a|e|] w1]; try discriminate.
  intros Hk. now exists a, w1.
Qed.

Lemma bind_emit {B : Type} (e : event) (k : unit -> M B) w :
  bind (emit e) k w = k tt (log e w).
Proof. reflexivity. Qed.

Section Steps.
Context {T : Type} `{Clock T}.
Variable env : Env T.

Lemma bind_time_time {B : Type} (k : T -> M B) w :
  bind (time_time env) k w
  = k (clock env (clock_reads w))
      {| trace := trace w; connects := connects w; sends := sends w;
         polls := polls w; clock_reads := S (clock_reads w) |}.
Proof. reflexivity. Qed.

Lemma connect_ret_inv self w c w1 :
  connect env self w = (Ret c, w1) ->
  c = connects w /\ on_connect env (connects w) = None
  /\ w1 = {| trace := trace w ++ [Connect (connects w) (public_ip_address (instance self))
                                          (user self) (key_filename_of self)];
             connects := S (connects w); sends := sends w;
             polls := polls w; clock_reads := clock_reads w |}.
Proof.
  unfold connect. destruct (on_connect env (connects w)); [discriminate|].
  intros Heq. injection Heq as <- <-. auto.
Qed.

Lemma exec_command_ret_inv c command timeout get_pty w out w1 :
  exec_command env c command timeout get_pty w = (Ret out, w1) ->
  on_exec env c command = inr (stdout out, stderr out)
  /\ w1 = log (Exec c command timeout get_pty) w.
Proof.
  unfold exec_command. destruct (on_exec env c command) as [e|[o r]]; [discriminate|].
  cbn. intros Heq. injection Heq as <- <-. auto.
Qed.

Lemma shell_ret_inv self c w ch w1 :
  shell env self c w = (Ret ch, w1) ->
  ch = c /\ on_shell env c = None
  /\ w1 = log (Shell c (fst (terminal_size env)) (snd (terminal_size env))) w.
Proof.
  unfold shell. destruct (terminal_size env) as [tw th].
  destruct (on_shell env c); [discriminate|].
  cbn. intros Heq. injection Heq as <- <-. auto.
Qed.

Lemma send_ret_inv ch data w u w1 :
  send env ch data w = (Ret u, w1) ->
  on_send env (sends w) = None
  /\ w1 = {| trace := trace w ++ [Send ch data]; connects := connects w;
             sends := S (sends w); polls := polls w;
             clock_reads := clock_reads w |}.
Proof.
  unfold send. destruct (on_send env (sends w)); [discriminate|].
  intros Heq. injection Heq as <-. auto.
Qed.

Lemma run_single_ret_inv self command timeout get_pty w out w1 :
  run_single env self command timeout get_pty w = (Ret out, w1) ->
  on_connect env (connects w) = None
  /\ on_exec env (connects w) command = inr (stdout out, stderr out)
  /\ w1 = {| trace := trace w
                      ++ [Connect (connects w) (public_ip_address (instance self))
                                  (user self) (key_filename_of self);
                          Exec (connects w) command timeout get_pty];
             connects := S (connects w); sends := sends w;
             polls := polls w; clock_reads := clock_reads w |}.
Proof.
  unfold run_single. intros Hrun.
  apply bind_ret_inv in Hrun as (c & w0 & Hc & Hx).
  apply connect_ret_inv in Hc as (-> & Hc & ->).
  apply exec_command_ret_inv in Hx as (Hx & ->).
  repeat split; auto. unfold log. cbn. now rewrite <- app_assoc.
Qed.
End Steps.

(** ** The shape of a run of [run_in_screen] that returns *)

Section Runs.
Context {T : Type} `{Clock T}.
Variable env : Env T.

Lemma try_close_ret_inv {A : Type} (m : M A) (c : nat) w (a : A) w' :
  try_except m (fun e => close c;; raise e) w = (Ret a, w') -> m w = (Ret a, w').
Proof.
  unfold try_except. destruct (m w) as [[a1|e|] w1]; auto; discriminate.
Qed.

Lemma send_command_line (channel : nat) (command : string) (terminate : bool) :
  (if terminate then
     send env channel (command ++ "; echo '" ++ ("CMD_COMPLETED_" ++ take 20 (command_hash command))
                               ++ "'; screen -X quit")
   else
     send env channel (command ++ "; echo '" ++ ("CMD_COMPLETED_" ++ take 20 (command_hash command))
                               ++ "'"))
  = send env channel (command_line command terminate).
Proof. destruct terminate; reflexivity. Qed.

Lemma run_in_screen_returns self command detach timeout terminate fuel w out w' :
  run_in_screen env self command detach timeout terminate fuel w = (Ret out, w') ->
  let c0 := connects w in
  let c1 := S (connects w) in
  let ip := public_ip_address (instance self) in
  exists tail,
    trace w' =
      (trace w
       ++ [ Connect c0 ip (user self) (key_filename_of self);
            Exec c0 "which screen" None false;
            Connect c1 ip (user self) (key_filename_of self);
            LogInfo ("Connected to " ++ ip);
            Shell c1 (fst (terminal_size env)) (snd (terminal_size env));
            Send c1 ("screen -S " ++ screen_name command (clock env (clock_reads w)) ++ chr LF);
            Sleep 100;
            Send c1 (command_line command terminate);
            Send c1 (chr LF) ]
       ++ tail ++ [Close c1])%list
    /\ (if detach then tail = [Sleep 1000; Send c1 detach_keys] /\ polls w' = polls w
        else Forall (fun e => is_poll_event e = true) tail)
    /\ out = {| stdout := received tail; stderr := received tail |}.
Proof.
  intros Hrun c0 c1 ip. unfold run_in_screen in Hrun. cbv zeta in Hrun.
  apply bind_ret_inv in Hrun as (probe & w1 & Hprobe & Hrun).
  apply run_single_ret_inv in Hprobe as (_ & _ & ->).
  destruct (contains "screen" (stdout probe)); [|discriminate].
  cbn [negb] in Hrun. unfold screen_session in Hrun. cbv zeta in Hrun.
  apply bind_ret_inv in Hrun as (client & w2 & Hc & Hrun).
  apply connect_ret_inv in Hc as (-> & _ & ->).
  cbn [trace connects sends polls clock_reads] in Hrun.
  apply try_close_ret_inv in Hrun.
  unfold logger_info, sleep in Hrun. rewrite bind_emit in Hrun.
  apply bind_ret_inv in Hrun as (channel & w3 & Hsh & Hrun).
  apply shell_ret_inv in Hsh as (-> & _ & ->).
  rewrite bind_time_time in Hrun.
  apply bind_ret_inv in Hrun as (u0 & w4 & Hs0 & Hrun).
  apply send_ret_inv in Hs0 as (_ & ->).
  rewrite bind_emit in Hrun.
  apply bind_ret_inv in Hrun as (u1 & w5 & Hs1 & Hrun).
  rewrite send_command_line in Hs1. apply send_ret_inv in Hs1 as (_ & ->).
  apply bind_ret_inv in Hrun as (u2 & w6 & Hs2 & Hrun).
  apply send_ret_inv in Hs2 as (_ & ->).
  rewrite bind_time_time in Hrun.
  apply bind_ret_inv in Hrun as (buffer & w7 & Htail & Hrun).
  unfold close in Hrun. rewrite bind_emit in Hrun.
  unfold ret in Hrun. injection Hrun as <- <-.
  cbn [trace connects sends polls clock_reads log] in *.
  destruct detach.
  - rewrite bind_emit in Htail.
    apply bind_ret_inv in Htail as (u3 & w8 & Hs3 & Htail).
    apply send_ret_inv in Hs3 as (_ & ->).
    unfold ret in Htail. injection Htail as <- <-.
    exists [Sleep 1000; Send c1 detach_keys].
    cbn [trace connects sends polls clock_reads log].
    repeat split. rewrite <- !app_assoc. reflexivity.
  - apply poll_loop_events in Htail as (evs & Ht & Hev & _ & _ & Hb).
    cbn [trace connects sends polls clock_reads log] in Ht.
    exists evs. rewrite Ht, (Hb buffer eq_refl). cbn [append].
    repeat split; auto. rewrite <- !app_assoc. reflexivity.
Qed.
End Runs.

(** ** What is sent, and what comes back *)

Lemma sent_app (a b : list event) : sent (a ++ b) = (sent a ++ sent b)%list.
Proof. unfold sent. apply flat_map_app. Qed.

Lemma sent_poll_events (evs : list event) :
  Forall (fun e => is_poll_event e = true) evs -> sent evs = [].
Proof.
  induction 1 as [|e evs He _ IH]; [reflexivity|].
  destruct e; try discriminate; exact IH.
Qed.

Lemma command_line_injection (command : string) (terminate : bool) :
  command_line command terminate ++ chr LF
  = spec_injection command (completion_marker command) terminate.
Proof.
  unfold command_line, spec_injection. now rewrite !append_assoc.
Qed.

(** C4.  In every run of [run_in_screen] that returns, what is sent down the
    channel after the line that starts the session is a line and a newline
    which, put together, are exactly the command, then [; echo '<marker>'],
    then [; screen -X quit] when [terminate] holds and nothing when it does
    not, then one newline; the only thing sent after that is the detach
    keystroke, when [detach] holds. *)
Theorem injected_bytes {T : Type} `{Clock T} (env : Env T) self command
        detach timeout terminate fuel w out w' :
  run_in_screen env self command detach timeout terminate fuel w = (Ret out, w') ->
  exists session_start line,
    sent (trace w')
    = (sent (trace w) ++ [session_start; line; chr LF]
       ++ (if detach then [detach_keys] else []))%list
    /\ line ++ chr LF
       = command ++ "; echo '" ++ completion_marker command ++ "'"
         ++ (if terminate then "; screen -X quit" else "") ++ chr LF.
Proof.
  intros Hrun. apply run_in_screen_returns in Hrun as (tail & Ht & Htail & _).
  exists ("screen -S " ++ screen_name command (clock env (clock_reads w)) ++ chr LF),
         (command_line command terminate).
  split.
  - rewrite Ht, !sent_app. f_equal.
    destruct detach.
    + destruct Htail as [-> _]. reflexivity.
    + rewrite (sent_poll_events tail Htail). reflexivity.
  - apply command_line_injection.
Qed.

Lemma injected_bytes_witness :
  exists session_start line,
    sent (trace (snd (run_in_screen demo (host RUNNING) "echo hello" false (Some 600%Z) true 10 fresh)))
    = (sent (trace fresh) ++ [session_start; line; chr LF]
       ++ (if false then [detach_keys] else []))%list
    /\ line ++ chr LF
       = "echo hello" ++ "; echo '" ++ completion_marker "echo hello" ++ "'"
         ++ (if true then "; screen -X quit" else "") ++ chr LF.
Proof.
  refine (injected_bytes demo (host RUNNING) "echo hello" false (Some 600%Z) true 10 fresh _ _ _).
  vm_compute. reflexivity.
Defined.

(** C9.  In every run of [run_in_screen] that returns, by the marker, by the
    timeout or by detaching, the two fields of the result are equal, and
    they are the one buffer put together from what the channel delivered
    during the run. *)
Theorem stdout_is_stderr {T : Type} `{Clock T} (env : Env T) self command
        detach timeout terminate fuel w out w' :
  run_in_screen env self command detach timeout terminate fuel w = (Ret out, w') ->
  stdout out = stderr out
  /\ received (trace w') = received (trace w) ++ stdout out.
Proof.
  intros Hrun. apply run_in_screen_returns in Hrun as (tail & Ht & _ & ->).
  split; [reflexivity|].
  rewrite Ht, !received_app. cbn [received fold_right stdout append].
  now rewrite append_nil_r.
Qed.

Lemma stdout_is_stderr_witness :
  stdout (Build_SessionContent ("hello" ++ chr LF ++ "CMD_COMPLETED_cd18203adcdc" ++ String CR (chr LF))
                               ("hello" ++ chr LF ++ "CMD_COMPLETED_cd18203adcdc" ++ String CR (chr LF)))
  = stderr (Build_SessionContent ("hello" ++ chr LF ++ "CMD_COMPLETED_cd18203adcdc" ++ String CR (chr LF))
                                 ("hello" ++ chr LF ++ "CMD_COMPLETED_cd18203adcdc" ++ String CR (chr LF)))
  /\ received (trace (snd (run_in_screen demo (host RUNNING) "echo hello" false (Some 600%Z) true 10 fresh)))
     = received (trace fresh)
       ++ stdout (Build_SessionContent ("hello" ++ chr LF ++ "CMD_COMPLETED_cd18203adcdc" ++ String CR (chr LF))
                                       ("hello" ++ chr LF ++ "CMD_COMPLETED_cd18203adcdc" ++ String CR (chr LF))).
Proof.
  refine (stdout_is_stderr demo (host RUNNING) "echo hello" false (Some 600%Z) true 10 fresh _ _ _).
  vm_compute. reflexivity.
Defined.

(** C10.  In every run of [run_in_screen] with [detach] that returns, the
    channel was not read: the loop made no pass over it and nothing was
    received, whatever the remote side had to deliver; both fields of the
    result are the empty string. *)
Theorem detach_reads_nothing {T : Type} `{Clock T} (env : Env T) self command
        timeout terminate fuel w out w' :
  run_in_screen env self command true timeout terminate fuel w = (Ret out, w') ->
  out = {| stdout := ""; stderr := "" |}
  /\ polls w' = polls w
  /\ received (trace w') = received (trace w).
Proof.
  intros Hrun. apply run_in_screen_returns in Hrun as (tail & Ht & [-> Hp] & ->).
  repeat split; auto.
  rewrite Ht, !received_app. cbn [received fold_right append].
  now rewrite append_nil_r.
Qed.

(** A channel with output ready at every pass: detaching ignores it. *)
Lemma detach_reads_nothing_witness :
  Build_SessionContent "" "" = {| stdout := ""; stderr := "" |}
  /\ polls (snd (run_in_screen (calm "/usr/bin/screen" (fun _ => Ready "busy") tick)
                               (host RUNNING) "make" true (Some 5%Z) false 0 fresh))
     = polls fresh
  /\ received (trace (snd (run_in_screen (calm "/usr/bin/screen" (fun _ => Ready "busy") tick)
                                         (host RUNNING) "make" true (Some 5%Z) false 0 fresh)))
     = received (trace fresh).
Proof.
  refine (detach_reads_nothing (calm "/usr/bin/screen" (fun _ => Ready "busy") tick)
            (host RUNNING) "make" (Some 5%Z) false 0 fresh _ _ _).
  vm_compute. reflexivity.
Defined.

(** ** The session name and the completion marker *)

Lemma chars_inj (a b : string) : chars a = chars b -> a = b.
Proof.
  intros Heq. rewrite <- (string_of_list_ascii_of_string a),
    <- (string_of_list_ascii_of_string b). unfold chars in Heq. now rewrite Heq.
Qed.

Lemma append_inv_tail (a b c : string) : a ++ c = b ++ c -> a = b.
Proof.
  intros Heq. apply chars_inj. apply (f_equal chars) in Heq.
  rewrite !chars_append in Heq. now apply app_inv_tail in Heq.
Qed.

Lemma seconds_time_str_inj (a b : N) : time_str a = time_str b -> a = b.
Proof.
  cbn [time_str seconds]. intros Heq. apply append_inv_tail in Heq.
  apply (f_equal NilEmpty.uint_of_string) in Heq.
  rewrite !NilEmpty.usu in Heq. injection Heq as Heq.
  apply (f_equal N.of_uint) in Heq. now rewrite !Unsigned.of_to in Heq.
Qed.

Lemma screen_name_inj {T : Type} `{Clock T} (command : string) (t1 t2 : T) :
  (forall a b : T, time_str a = time_str b -> a = b) ->
  screen_name command t1 = screen_name command t2 -> t1 = t2.
Proof.
  intros Hinj Heq. unfold screen_name in Heq.
  apply append_inv_head in Heq. apply append_inv_head in Heq.
  apply append_inv_head in Heq. now apply Hinj.
Qed.

(** C5.  Take two runs of [run_in_screen] on the same command that return,
    in any two worlds, with any flags.  The marker echoed after the command
    is the same in both, [completion_marker command], which is computed
    from the text of the command and nothing else.  The session started is
    named [screen_name command t], with [t] the reading of the clock at that
    moment: where the text of a reading determines the reading, as the text
    of a float does, runs at different readings start sessions of different
    names. *)
Theorem marker_from_command_name_from_time {T : Type} `{Clock T}
        (env1 env2 : Env T) self1 self2 command detach1 detach2 timeout1 timeout2
        terminate1 terminate2 fuel1 fuel2 w1 w2 out1 out2 w1' w2' :
  (forall a b : T, time_str a = time_str b -> a = b) ->
  run_in_screen env1 self1 command detach1 timeout1 terminate1 fuel1 w1 = (Ret out1, w1') ->
  run_in_screen env2 self2 command detach2 timeout2 terminate2 fuel2 w2 = (Ret out2, w2') ->
  let t1 := clock env1 (clock_reads w1) in
  let t2 := clock env2 (clock_reads w2) in
  (exists rest1 rest2,
     sent (trace w1')
     = app (sent (trace w1))
           (("screen -S " ++ screen_name command t1 ++ chr LF)
            :: (command ++ "; echo '" ++ completion_marker command ++ "'"
                ++ (if terminate1 then "; screen -X quit" else ""))
            :: rest1)
     /\ sent (trace w2')
        = app (sent (trace w2))
              (("screen -S " ++ screen_name command t2 ++ chr LF)
               :: (command ++ "; echo '" ++ completion_marker command ++ "'"
                   ++ (if terminate2 then "; screen -X quit" else ""))
               :: rest2))
  /\ (t1 <> t2 -> screen_name command t1 <> screen_name command t2).
Proof.
  intros Hinj Hrun1 Hrun2 t1 t2. split.
  - apply run_in_screen_returns in Hrun1 as (tail1 & Ht1 & _ & _).
    apply run_in_screen_returns in Hrun2 as (tail2 & Ht2 & _ & _).
    eexists _, _. rewrite Ht1, Ht2, !sent_app. split; reflexivity.
  - intros Hne Heq. apply Hne. now apply (screen_name_inj command).
Qed.

Lemma marker_from_command_name_from_time_witness :
  let run1 := run_in_screen demo (host RUNNING) "echo hello" false (Some 600%Z) true 10 fresh in
  let run2 := run_in_screen later (host RUNNING) "echo hello" true None false 0 fresh in
  (exists rest1 rest2,
     sent (trace (snd run1))
     = app (sent (trace fresh))
           (("screen -S " ++ screen_name "echo hello" (tick 0) ++ chr LF)
            :: ("echo hello" ++ "; echo '" ++ completion_marker "echo hello" ++ "'"
                ++ "; screen -X quit")
            :: rest1)
     /\ sent (trace (snd run2))
        = app (sent (trace fresh))
              (("screen -S " ++ screen_name "echo hello" 1700003600%N ++ chr LF)
               :: ("echo hello" ++ "; echo '" ++ completion_marker "echo hello" ++ "'" ++ "")
               :: rest2))
  /\ (tick 0 <> 1700003600%N
      -> screen_name "echo hello" (tick 0) <> screen_name "echo hello" 1700003600%N).
Proof.
  refine (marker_from_command_name_from_time demo later (host RUNNING) (host RUNNING)
            "echo hello" false true (Some 600%Z) None true false 10 0 fresh fresh
            _ _ _ _ seconds_time_str_inj _ _);
    vm_compute; reflexivity.
Defined.

(** ** Computations that only add to the trace and raise no [ValueError] *)

Lemma tame_ret {A : Type} (a : A) : tame (ret a).
Proof.
  intros w r w' Heq. injection Heq as <- <-. split; [|discriminate].
  exists []. now rewrite app_nil_r.
Qed.

Lemma tame_raise {A : Type} (e : exn) :
  (forall msg, e <> ValueError msg) -> tame (@raise A e).
Proof.
  intros He w r w' Heq. injection Heq as <- <-. split.
  - exists []. now rewrite app_nil_r.
  - intros msg Hr. injection Hr as Hr. now apply (He msg).
Qed.

Lemma tame_emit (e : event) : tame (emit e).
Proof.
  intros w r w' Heq. injection Heq as <- <-. split; [|discriminate]. now exists [e].
Qed.

Lemma tame_bind {A B : Type} (m : M A) (k : A -> M B) :
  tame m -> (forall a, tame (k a)) -> tame (bind m k).
Proof.
  intros Hm Hk w r w'. unfold bind. destruct (m w) as [r1 w1] eqn:Hmw.
  destruct (Hm _ _ _ Hmw) as [[evs1 Ht1] Hr1]. destruct r1 as [a|e|].
  - intros Hka. destruct (Hk a _ _ _ Hka) as [[evs2 Ht2] Hr2]. split; [|exact Hr2].
    exists (evs1 ++ evs2)%list. now rewrite Ht2, Ht1, app_assoc.
  - intros Heq. injection Heq as <- <-. split; [now exists evs1|].
    intros msg Hr. injection Hr as ->. now apply (Hr1 msg).
  - intros Heq. injection Heq as <- <-. split; [now exists evs1 | discriminate].
Qed.

Lemma tame_try_close {A : Type} (m : M A) (c : nat) :
  tame m -> tame (try_except m (fun e => close c;; raise e)).
Proof.
  intros Hm w r w'. unfold try_except. destruct (m w) as [r1 w1] eqn:Hmw.
  destruct (Hm _ _ _ Hmw) as [[evs1 Ht1] Hr1]. destruct r1 as [a|e|].
  - intros Heq. injection Heq as <- <-. split; [now exists evs1 | discriminate].
  - cbn. intros Heq. injection Heq as <- <-. split; [|exact Hr1].
    exists (evs1 ++ [Close c])%list. cbn. now rewrite Ht1, app_assoc.
  - intros Heq. injection Heq as <- <-. split; [now exists evs1 | discriminate].
Qed.

Section Tame.
Context {T : Type} `{Clock T}.
Variable env : Env T.

Lemma tame_connect self : tame (connect env self).
Proof.
  intros w r w'. unfold connect. destruct (on_connect env (connects w));
    intros Heq; injection Heq as <- <-; (split; [eexists [_]; reflexivity | discriminate]).
Qed.

Lemma tame_exec_command c command timeout get_pty :
  tame (exec_command env c command timeout get_pty).
Proof.
  unfold exec_command. destruct (on_exec env c command) as [name|[o e]].
  - apply tame_raise. discriminate.
  - apply tame_bind; [apply tame_emit | intros; apply tame_ret].
Qed.

Lemma tame_shell self c : tame (shell env self c).
Proof.
  unfold shell. destruct (terminal_size env) as [tw th]. destruct (on_shell env c).
  - apply tame_raise. discriminate.
  - apply tame_bind; [apply tame_emit | intros; apply tame_ret].
Qed.

Lemma tame_send ch data : tame (send env ch data).
Proof.
  intros w r w'. unfold send. destruct (on_send env (sends w));
    intros Heq; injection Heq as <- <-; split; try discriminate.
  - exists []. cbn. now rewrite app_nil_r.
  - now exists [Send ch data].
Qed.

Lemma tame_time_time : tame (time_time env).
Proof.
  intros w r w' Heq. injection Heq as <- <-. split; [|discriminate].
  exists []. cbn. now rewrite app_nil_r.
Qed.

Lemma tame_run_single self command timeout get_pty :
  tame (run_single env self command timeout get_pty).
Proof.
  unfold run_single. apply tame_bind; [apply tame_connect|].
  intros c. apply tame_exec_command.
Qed.

Lemma tame_poll_loop fuel channel command marker timeout start buffer :
  tame (poll_loop env fuel channel command marker timeout start buffer).
Proof.
  intros w r w' Hloop. split.
  - apply poll_loop_events in Hloop as (evs & Ht & _). now exists evs.
  - revert buffer w Hloop. induction fuel as [|fuel IH]; intros buffer w; cbn [poll_loop].
    + intros Heq. injection Heq as <- <-. discriminate.
    + unfold bind at 1.
      destruct (poll_iteration env channel command marker timeout start buffer w)
        as [r1 w1] eqn:Hit.
      destruct r1 as [[stop b1]|e|].
      * destruct stop.
        -- intros Heq. injection Heq as <- <-. discriminate.
        -- unfold bind, sleep, emit. apply IH.
      * intros Heq. injection Heq as <- <-.
        revert Hit. unfold poll_iteration, bind, poll.
        destruct (on_poll env (polls w)) as [|chunk|name].
        -- destruct (timed_out_world env timeout start
                       {| trace := trace w; connects := connects w; sends := sends w;
                          polls := S (polls w); clock_reads := clock_reads w |})
             as (x & w2 & -> & _). destruct x; discriminate.
        -- unfold stdout_write, emit. destruct (scan (buffer ++ chunk) marker); [discriminate|].
           match goal with |- context [timed_out env timeout start ?w0] =>
             destruct (timed_out_world env timeout start w0) as (x & w2 & -> & _)
           end.
           destruct x; discriminate.
        -- intros Heq. injection Heq as <- _. discriminate.
      * intros Heq. injection Heq as <- <-. discriminate.
Qed.

Lemma tame_screen_session self command detach timeout terminate fuel :
  tame (screen_session env self command detach timeout terminate fuel).
Proof.
  unfold screen_session. cbv zeta. apply tame_bind; [apply tame_connect|].
  intros client. apply tame_try_close.
  repeat first
    [ apply tame_ret | apply tame_emit | apply tame_time_time | apply tame_send
    | apply tame_shell | apply tame_poll_loop
    | apply tame_bind; [|intros ?]
    | match goal with |- tame (if ?b then _ else _) => destruct b end ].
Qed.

Lemma tame_run_in_screen self command detach timeout terminate fuel :
  tame (run_in_screen env self command detach timeout terminate fuel).
Proof.
  unfold run_in_screen. apply tame_bind; [apply tame_run_single|]. intros probe.
  destruct (negb (contains "screen" (stdout probe))).
  - apply tame_raise. discriminate.
  - apply tame_screen_session.
Qed.
End Tame.

(** ** The guard of [run] *)

Lemma InstanceStatus_eqb_RUNNING (s : InstanceStatus) :
  InstanceStatus_eqb s RUNNING = true <-> s = RUNNING.
Proof. destruct s; cbn; split; congruence. Qed.

(** C3.  When the status of the instance is anything but [RUNNING], [run]
    raises the [ValueError] of line 182 and leaves the world as it found it:
    no connection was attempted, nothing was sent.  When the status is
    [RUNNING], [run] is the execution itself, [run_in_screen] or
    [run_single], and whatever that raises is not a [ValueError]. *)
Theorem run_requires_running {T : Type} `{Clock T} (env : Env T) self command
        get_pty detach terminate timeout fuel w :
  (state (instance self) <> RUNNING ->
   run env self command get_pty detach terminate timeout fuel w
   = (Raise (ValueError ("Instance " ++ instance_id (instance self) ++ " is not running")), w))
  /\ (state (instance self) = RUNNING ->
      run env self command get_pty detach terminate timeout fuel w
      = (if detach
         then run_in_screen env self command detach (timeout_or_600 timeout) terminate fuel w
         else run_single env self command timeout get_pty w)
      /\ forall msg,
           fst (run env self command get_pty detach terminate timeout fuel w)
           <> Raise (ValueError msg)).
Proof.
  unfold run. split.
  - intros Hstate.
    destruct (InstanceStatus_eqb (state (instance self)) RUNNING) eqn:Heqb; [|reflexivity].
    apply InstanceStatus_eqb_RUNNING in Heqb. contradiction.
  - intros Hstate. rewrite Hstate. cbn [InstanceStatus_eqb negb].
    split; [now destruct detach|].
    intros msg. destruct detach.
    + destruct (run_in_screen env self command true (timeout_or_600 timeout) terminate fuel w)
        as [r w'] eqn:Hrun.
      apply tame_run_in_screen in Hrun as [_ Hr]. apply Hr.
    + destruct (run_single env self command timeout get_pty w) as [r w'] eqn:Hrun.
      apply tame_run_single in Hrun as [_ Hr]. apply Hr.
Qed.

Lemma run_requires_running_witness :
  run demo (host STOPPED) "echo hello" false false true None 0 fresh
  = (Raise (ValueError "Instance i-0abc is not running"), fresh)
  /\ (run demo (host RUNNING) "echo hello" false false true None 0 fresh
      = run_single demo (host RUNNING) "echo hello" None false fresh
      /\ forall msg,
           fst (run demo (host RUNNING) "echo hello" false false true None 0 fresh)
           <> Raise (ValueError msg)).
Proof.
  split.
  - apply (proj1 (run_requires_running demo (host STOPPED) "echo hello"
                    false false true None 0 fresh)).
    discriminate.
  - apply (proj2 (run_requires_running demo (host RUNNING) "echo hello"
                    false false true None 0 fresh)).
    reflexivity.
Defined.

(** ** The probe *)

(** C7.  Every run of [run_in_screen] starts with the one-shot command
    [which screen]: its trace continues the trace of that probe.  When the
    probe raises, the run raises the same and does nothing more.  When the
    probe returns and its standard output does not contain [screen], the
    run raises the [RuntimeError] of line 103 and does nothing more: the
    trace holds the connection of the probe and its command, no shell
    channel, nothing sent, no second connection.  When the standard output
    contains [screen], the run goes on with the session of lines 105-169. *)
Theorem probe_guards_session {T : Type} `{Clock T} (env : Env T) self command
        detach timeout terminate fuel w r0 w1 r w' :
  run_single env self "which screen" None false w = (r0, w1) ->
  run_in_screen env self command detach timeout terminate fuel w = (r, w') ->
  (exists more, trace w' = (trace w1 ++ more)%list)
  /\ (forall e, r0 = Raise e -> r = Raise e /\ w' = w1)
  /\ (forall probe,
        r0 = Ret probe -> contains "screen" (stdout probe) = false ->
        r = Raise (RuntimeError "screen is not installed; cannot run in screen")
        /\ w' = w1
        /\ trace w'
           = (trace w
              ++ [ Connect (connects w) (public_ip_address (instance self))
                           (user self) (key_filename_of self);
                   Exec (connects w) "which screen" None false ])%list
        /\ sends w' = sends w)
  /\ (forall probe,
        r0 = Ret probe -> contains "screen" (stdout probe) = true ->
        screen_session env self command detach timeout terminate fuel w1 = (r, w')).
Proof.
  intros Hprobe Hrun. unfold run_in_screen, bind in Hrun. rewrite Hprobe in Hrun.
  assert (Hnil : forall tr : list event, exists more, tr = (tr ++ more)%list)
    by (intros tr; exists []; now rewrite app_nil_r).
  destruct r0 as [probe|e|].
  - destruct (contains "screen" (stdout probe)) eqn:Hfound; cbn [negb] in Hrun.
    + split; [|split; [discriminate|split]].
      * now apply tame_screen_session in Hrun as [Hgrow _].
      * intros probe' Heq. injection Heq as <-. congruence.
      * intros probe' Heq _. injection Heq as <-. exact Hrun.
    + injection Hrun as <- <-. split; [apply Hnil|]. split; [discriminate|]. split.
      * intros probe' Heq _. injection Heq as <-.
        apply run_single_ret_inv in Hprobe as (_ & _ & ->). repeat split.
      * intros probe' Heq. injection Heq as <-. congruence.
  - injection Hrun as <- <-. split; [apply Hnil|]. split.
    + intros e' Heq. injection Heq as <-. now split.
    + split; discriminate.
  - injection Hrun as <- <-. split; [apply Hnil|]. repeat split; discriminate.
Qed.

Lemma probe_guards_session_witness :
  let probed := run_single bare (host RUNNING) "which screen" None false fresh in
  let ran := run_in_screen bare (host RUNNING) "make" false (Some 600%Z) true 10 fresh in
  fst ran = Raise (RuntimeError "screen is not installed; cannot run in screen")
  /\ snd ran = snd probed
  /\ trace (snd ran)
     = (trace fresh
        ++ [ Connect (connects fresh) (public_ip_address (instance (host RUNNING)))
                     (user (host RUNNING)) (key_filename_of (host RUNNING));
             Exec (connects fresh) "which screen" None false ])%list
  /\ sends (snd ran) = sends fresh.
Proof.
  intros probed ran.
  assert (Hprobed : probed = (Ret {| stdout := ""; stderr := "" |}, snd probed))
    by (vm_compute; reflexivity).
  assert (Hran : ran = (fst ran, snd ran)) by (vm_compute; reflexivity).
  exact (proj1 (proj2 (proj2 (probe_guards_session bare (host RUNNING) "make" false
                                (Some 600%Z) true 10 fresh _ _ _ _ Hprobed Hran)))
               {| stdout := ""; stderr := "" |} eq_refl eq_refl).
Defined.

(** ** Connections left open *)

(** C2, at a world where every call succeeds.  [run_single] returns with
    its connection open and never closed.  In [run_in_screen] the probe
    goes through [run_single]: its connection, 0, is still open when the
    session opens connection 1, so that two are open at once; connection 1
    is closed once, connection 0 never. *)
Theorem connection_left_open :
  let one := run_single demo (host RUNNING) "echo hello" None false fresh in
  let two := run_in_screen demo (host RUNNING) "echo hello" false (Some 600%Z) true 10 fresh in
  (exists out, fst one = Ret out)
  /\ live (trace (snd one)) = [0]
  /\ closes 0 (trace (snd one)) = 0
  /\ (exists out, fst two = Ret out)
  /\ peak_live (trace (snd two)) = 2
  /\ live (trace (snd two)) = [0]
  /\ closes 0 (trace (snd two)) = 0
  /\ closes 1 (trace (snd two)) = 1.
Proof.
  cbv zeta. split; [eexists; vm_compute; reflexivity|].
  split; [vm_compute; reflexivity|]. split; [vm_compute; reflexivity|].
  split; [eexists; vm_compute; reflexivity|].
  repeat split; vm_compute; reflexivity.
Qed.

(** In every world, a [run_single] that returns has opened a connection and
    closed none. *)
Lemma run_single_closes_nothing {T : Type} `{Clock T} (env : Env T) self command
      timeout get_pty w out w' :
  run_single env self command timeout get_pty w = (Ret out, w') ->
  forall c, closes c (trace w') = closes c (trace w).
Proof.
  intros Hrun c. apply run_single_ret_inv in Hrun as (_ & _ & ->).
  cbn [trace]. unfold closes. rewrite filter_app, length_app. cbn. lia.
Qed.

(** ** The polling loop, pass by pass *)

Section PassByPass.
Context {T : Type} `{Clock T}.
Variable env : Env T.
Variables (channel : nat) (command marker : string) (timeout : option Z) (start : T).

Let warning : string := chr LF ++ "Timeout waiting for command: " ++ command.

Lemma buffer_after_shift p b k :
  buffer_after env p b (S k) = buffer_after env (S p) (b ++ chunk_at env p 0) k.
Proof.
  induction k as [|k IH]; [reflexivity|].
  change (buffer_after env p b (S (S k)))
    with (buffer_after env p b (S k) ++ chunk_at env p (S k)).
  rewrite IH. cbn [buffer_after]. unfold chunk_at.
  now replace (p + S k) with (S p + k) by lia.
Qed.

Lemma found_at_shift p b k :
  found_at env (S p) marker (b ++ chunk_at env p 0) k = found_at env p marker b (S k).
Proof.
  unfold found_at. replace (p + S k) with (S p + k) by lia.
  now rewrite <- (buffer_after_shift p b (S k)).
Qed.

Lemma expired_at_shift c c1 k :
  (truthy_int timeout = true -> c1 = S c) ->
  expired_at env c1 timeout start k = expired_at env c timeout start (S k).
Proof.
  unfold expired_at. destruct timeout as [t|]; [|reflexivity].
  destruct (truthy_int (Some t)); [|reflexivity].
  intros Hc. rewrite (Hc eq_refl). now replace (c + S k) with (S c + k) by lia.
Qed.

Lemma stops_at_shift p c c1 b k :
  (truthy_int timeout = true -> c1 = S c) ->
  stops_at env (S p) c1 marker timeout start (b ++ chunk_at env p 0) k
  = stops_at env p c marker timeout start b (S k).
Proof.
  intros Hc. unfold stops_at. now rewrite found_at_shift, (expired_at_shift c c1 k Hc).
Qed.

Lemma timed_out_run w :
  timed_out env timeout start w
  = (Ret (expired_at env (clock_reads w) timeout start 0),
     if truthy_int timeout
     then {| trace := trace w; connects := connects w; sends := sends w;
             polls := polls w; clock_reads := S (clock_reads w) |}
     else w).
Proof.
  unfold timed_out, expired_at, truthy_int. destruct timeout as [t|]; [|reflexivity].
  destruct (t =? 0)%Z; [reflexivity|]. cbn. now rewrite Nat.add_0_r.
Qed.

(** One pass, when the channel does not raise. *)
Lemma poll_iteration_run b w :
  (forall name, on_poll env (polls w) <> PollRaises name) ->
  exists w1,
    poll_iteration env channel command marker timeout start b w
    = (Ret (stops_at env (polls w) (clock_reads w) marker timeout start b 0,
            b ++ chunk_at env (polls w) 0), w1)
    /\ polls w1 = S (polls w)
    /\ (stops_at env (polls w) (clock_reads w) marker timeout start b 0 = false ->
        truthy_int timeout = true -> clock_reads w1 = S (clock_reads w))
    /\ (found_at env (polls w) marker b 0 = false ->
        stops_at env (polls w) (clock_reads w) marker timeout start b 0 = true ->
        In (LogWarning warning) (trace w1)).
Proof.
  intros Hquiet.
  unfold poll_iteration, bind, poll, stops_at, found_at, chunk_at.
  cbn [buffer_after]. unfold chunk_at. rewrite !Nat.add_0_r.
  destruct (on_poll env (polls w)) as [|chunk|name] eqn:Hpoll.
  - rewrite timed_out_run. cbn [clock_reads orb polls].
    destruct (expired_at env (clock_reads w) timeout start 0) eqn:Hexp;
      destruct (truthy_int timeout) eqn:Htr;
      (eexists; split; [cbn; now rewrite append_nil_r|]);
      cbn; repeat split; try discriminate; try reflexivity.
    + intros _ _. apply in_or_app. right. now left.
    + intros _ _. apply in_or_app. right. now left.
  - unfold stdout_write, emit. destruct (scan (b ++ chunk) marker) eqn:Hscan.
    + eexists. split; [reflexivity|]. cbn. repeat split; discriminate.
    + rewrite timed_out_run. cbn [clock_reads orb log polls].
      destruct (expired_at env (clock_reads w) timeout start 0) eqn:Hexp;
        destruct (truthy_int timeout) eqn:Htr;
        (eexists; split; [reflexivity|]);
        cbn; repeat split; try discriminate; try reflexivity.
      * intros _ _. apply in_or_app. right. now left.
      * intros _ _. apply in_or_app. right. now left.
  - now contradiction (Hquiet name).
Qed.
Lemma quiet_shift p : quiet env p -> quiet env (S p).
Proof.
  intros Hq k name. replace (S p + k) with (p + S k) by lia. apply Hq.
Qed.

Lemma quiet_now p : quiet env p -> forall name, on_poll env p <> PollRaises name.
Proof.
  intros Hq name. specialize (Hq 0 name). now rewrite Nat.add_0_r in Hq.
Qed.

(** The loop stops in the first pass that finds the marker or the timeout
    exceeded, and returns the buffer of that pass. *)
Lemma poll_loop_stops k : forall fuel b w,
  quiet env (polls w) ->
  (forall j, j < k ->
     stops_at env (polls w) (clock_reads w) marker timeout start b j = false) ->
  stops_at env (polls w) (clock_reads w) marker timeout start b k = true ->
  exists w',
    poll_loop env (S k + fuel) channel command marker timeout start b w
    = (Ret (buffer_after env (polls w) b (S k)), w')
    /\ (found_at env (polls w) marker b k = false -> In (LogWarning warning) (trace w')).
Proof.
  induction k as [|k IH]; intros fuel b w Hquiet Hbefore Hstop.
  - destruct (poll_iteration_run b w (quiet_now _ Hquiet)) as (w1 & Hit & _ & _ & Hwarn).
    cbn [Nat.add poll_loop]. unfold bind at 1. rewrite Hit, Hstop.
    exists w1. split; [reflexivity|]. intros Hnf. now apply Hwarn.
  - destruct (poll_iteration_run b w (quiet_now _ Hquiet)) as (w1 & Hit & Hp & Hc & _).
    assert (H0 : stops_at env (polls w) (clock_reads w) marker timeout start b 0 = false)
      by (apply Hbefore; lia).
    change (S (S k) + fuel) with (S (S k + fuel)).
    cbn [poll_loop]. unfold bind at 1. rewrite Hit, H0.
    unfold bind, sleep, emit.
    specialize (Hc H0).
    destruct (IH fuel (b ++ chunk_at env (polls w) 0) (log (Sleep 100) w1))
      as (w' & Hloop & Hwarn).
    + cbn [polls log]. rewrite Hp. now apply quiet_shift.
    + intros j Hj. cbn [polls clock_reads log]. rewrite Hp.
      rewrite (stops_at_shift (polls w) (clock_reads w) (clock_reads w1) b j Hc).
      apply Hbefore. lia.
    + cbn [polls clock_reads log]. rewrite Hp.
      now rewrite (stops_at_shift (polls w) (clock_reads w) (clock_reads w1) b k Hc).
    + exists w'. cbn [polls clock_reads log] in Hloop, Hwarn. rewrite Hp in Hloop, Hwarn.
      rewrite <- buffer_after_shift in Hloop. split; [exact Hloop|].
      intros Hnf. apply Hwarn. now rewrite found_at_shift.
Qed.

(** While no pass stops it, the loop goes on. *)
Lemma poll_loop_starves fuel : forall b w,
  quiet env (polls w) ->
  (forall j, j < fuel ->
     stops_at env (polls w) (clock_reads w) marker timeout start b j = false) ->
  fst (poll_loop env fuel channel command marker timeout start b w) = Diverge.
Proof.
  induction fuel as [|fuel IH]; intros b w Hquiet Hnone; [reflexivity|].
  destruct (poll_iteration_run b w (quiet_now _ Hquiet)) as (w1 & Hit & Hp & Hc & _).
  assert (H0 : stops_at env (polls w) (clock_reads w) marker timeout start b 0 = false)
    by (apply Hnone; lia).
  cbn [poll_loop]. unfold bind at 1. rewrite Hit, H0. unfold bind, sleep, emit.
  specialize (Hc H0). apply IH.
  - cbn [polls log]. rewrite Hp. now apply quiet_shift.
  - intros j Hj. cbn [polls clock_reads log]. rewrite Hp.
    rewrite (stops_at_shift (polls w) (clock_reads w) (clock_reads w1) b j Hc).
    apply Hnone. lia.
Qed.
End PassByPass.

(** ** Termination of the polling loop *)

Lemma first_true (P : nat -> bool) (k : nat) :
  P k = true -> exists k0, k0 <= k /\ P k0 = true /\ forall j, j < k0 -> P j = false.
Proof.
  induction k as [k IH] using lt_wf_ind. intros Hk.
  assert (Hdec : (forall j, j < k -> P j = false) \/ exists j, j < k /\ P j = true).
  { clear. induction k as [|k [Hall | (j & Hj & Hp)]].
    - left. intros j Hj. lia.
    - destruct (P k) eqn:Hk.
      + right. exists k. split; [lia | exact Hk].
      + left. intros j Hj. destruct (Nat.eq_dec j k) as [-> | Hne]; [exact Hk|].
        apply Hall. lia.
    - right. exists j. split; [lia | exact Hp]. }
  destruct Hdec as [Hall | (j & Hj & Hp)].
  - exists k. repeat split; auto.
  - destruct (IH j Hj Hp) as (k0 & Hle & Hk0 & Hmin).
    exists k0. repeat split; auto. lia.
Qed.

Lemma none_or_some (P : nat -> bool) (n : nat) :
  (forall j, j < n -> P j = false) \/ exists j, j < n /\ P j = true.
Proof.
  induction n as [|n [Hall | (j & Hj & Hp)]].
  - left. intros j Hj. lia.
  - destruct (P n) eqn:Hn.
    + right. exists n. split; [lia | exact Hn].
    + left. intros j Hj. destruct (Nat.eq_dec j n) as [-> | Hne]; [exact Hn|].
      apply Hall. lia.
  - right. exists j. split; [lia | exact Hp].
Qed.

Lemma scan_empty (m : string) : word m -> scan "" m = false.
Proof. intros Hm. now rewrite (scan_search "" m Hm). Qed.

Section Termination.
Context {T : Type} `{Clock T}.
Variable env : Env T.

Lemma expired_at_iff c timeout (start : T) k :
  expired_at env c timeout start k = true
  <-> exists t, timeout = Some t /\ t <> 0%Z
                /\ elapsed_gt (clock env (c + k)) start t = true.
Proof.
  unfold expired_at, truthy_int. destruct timeout as [t|].
  - rewrite andb_true_iff, negb_true_iff, Z.eqb_neq. split.
    + intros [Ht He]. now exists t.
    + intros (t' & Heq & Ht & He). injection Heq as <-. now split.
  - split; [discriminate|]. now intros (t & Heq & _).
Qed.

Lemma found_at_scan p marker b k :
  found_at env p marker b k = true -> scan (buffer_after env p b (S k)) marker = true.
Proof. unfold found_at. now destruct (on_poll env (p + k)). Qed.

Lemma scan_found_at p marker b k :
  scan (buffer_after env p b k) marker = false ->
  scan (buffer_after env p b (S k)) marker = true ->
  found_at env p marker b k = true.
Proof.
  unfold found_at. cbn [buffer_after]. unfold chunk_at.
  destruct (on_poll env (p + k)); rewrite ?append_nil_r; congruence.
Qed.

(** Some pass meets the marker on its own line or the timeout exceeded:
    then some pass stops the loop, and none does before. *)
Lemma first_stop p c marker timeout (start : T) k :
  word marker ->
  scan (buffer_after env p "" (S k)) marker = true
  \/ expired_at env c timeout start k = true ->
  exists k0,
    stops_at env p c marker timeout start "" k0 = true
    /\ forall j, j < k0 -> stops_at env p c marker timeout start "" j = false.
Proof.
  intros Hm Hk.
  pose (P := fun j => scan (buffer_after env p "" (S j)) marker
                      || expired_at env c timeout start j).
  assert (HP : P k = true) by (unfold P; apply orb_true_iff; exact Hk).
  destruct (first_true P k HP) as (k0 & _ & Hk0 & Hmin).
  exists k0. split.
  - unfold stops_at. unfold P in Hk0. apply orb_true_iff in Hk0 as [Hs | He].
    + apply orb_true_iff. left. apply scan_found_at; [|exact Hs].
      destruct k0 as [|k1]; [now apply scan_empty|].
      specialize (Hmin k1 (Nat.lt_succ_diag_r k1)). unfold P in Hmin.
      now apply orb_false_iff in Hmin as [Hs1 _].
    + apply orb_true_iff. now right.
  - intros j Hj. specialize (Hmin j Hj). unfold P in Hmin.
    apply orb_false_iff in Hmin as [Hs He]. unfold stops_at. rewrite He, orb_false_r.
    destruct (found_at env p marker "" j) eqn:Hf; [|reflexivity].
    apply found_at_scan in Hf. congruence.
Qed.

(** C8.  Take the polling loop as [run_in_screen] enters it, with an empty
    buffer, on a channel that does not raise.  It comes to an end, for some
    bound on its passes, exactly when at some pass the accumulated output
    holds the marker on a line of its own, or a timeout is configured (an
    integer other than 0) and the elapsed time read at that pass exceeds
    it; it then ends by returning, not by raising.  When no timeout is
    configured and the marker never comes, the loop outlasts every bound:
    it runs forever. *)
Theorem polling_terminates_iff channel command timeout (start : T) w :
  let marker := completion_marker command in
  let loop := fun fuel => poll_loop env fuel channel command marker timeout start "" w in
  let output := buffer_after env (polls w) "" in
  let exceeded := fun k =>
    exists t, timeout = Some t /\ t <> 0%Z
              /\ elapsed_gt (clock env (clock_reads w + k)) start t = true in
  quiet env (polls w) ->
  ((exists fuel, fst (loop fuel) <> Diverge)
   <-> (exists k, on_own_line marker (output k) \/ exceeded k))
  /\ (forall fuel, fst (loop fuel) <> Diverge -> exists buffer, fst (loop fuel) = Ret buffer)
  /\ (truthy_int timeout = false ->
      (forall k, ~ on_own_line marker (output k)) ->
      forall fuel, fst (loop fuel) = Diverge).
Proof.
  intros marker loop output exceeded Hquiet.
  pose proof (completion_marker_word command) as Hword. fold marker in Hword.
  assert (Hstopped : forall fuel, fst (loop fuel) <> Diverge ->
            exists j, j < fuel
              /\ stops_at env (polls w) (clock_reads w) marker timeout start "" j = true).
  { intros fuel Hend.
    destruct (none_or_some
                (stops_at env (polls w) (clock_reads w) marker timeout start "") fuel)
      as [Hnone | Hsome]; [|exact Hsome].
    contradiction Hend.
    now apply (poll_loop_starves env channel command marker timeout start fuel "" w). }
  assert (Hfwd : forall fuel, fst (loop fuel) <> Diverge ->
            exists k, on_own_line marker (output k) \/ exceeded k).
  { intros fuel Hend. destruct (Hstopped fuel Hend) as (j & _ & Hj).
    unfold stops_at in Hj. apply orb_true_iff in Hj as [Hf | He].
    - exists (S j). left. apply (scan_word_iff _ _ Hword). now apply found_at_scan.
    - exists j. right. now apply expired_at_iff. }
  split; [split|split].
  - intros [fuel Hend]. now apply (Hfwd fuel).
  - intros [k Hk].
    assert (Hk' : exists k', scan (buffer_after env (polls w) "" (S k')) marker = true
                             \/ expired_at env (clock_reads w) timeout start k' = true).
    { destruct Hk as [Hline | Hexc].
      - apply (scan_word_iff _ _ Hword) in Hline. destruct k as [|k'].
        + unfold output in Hline. cbn [buffer_after] in Hline.
          rewrite (scan_empty marker Hword) in Hline. discriminate.
        + exists k'. now left.
      - exists k. right. now apply expired_at_iff. }
    destruct Hk' as [k' Hk'].
    destruct (first_stop (polls w) (clock_reads w) marker timeout start k' Hword Hk')
      as (k0 & Hstop & Hbefore).
    destruct (poll_loop_stops env channel command marker timeout start k0 0 "" w
                Hquiet Hbefore Hstop) as (w' & Hloop & _).
    exists (S k0 + 0). unfold loop. rewrite Hloop. discriminate.
  - intros fuel Hend. destruct (Hstopped fuel Hend) as (j & Hj & Hstop).
    destruct (first_true _ j Hstop) as (k0 & Hle & Hstop0 & Hbefore).
    destruct (poll_loop_stops env channel command marker timeout start k0
                (fuel - S k0) "" w Hquiet Hbefore Hstop0) as (w' & Hloop & _).
    replace (S k0 + (fuel - S k0)) with fuel in Hloop by lia.
    eexists. unfold loop. now rewrite Hloop.
  - intros Hnone Hnever fuel.
    destruct (fst (loop fuel)) eqn:Hres; [| |reflexivity].
    + assert (Hend : fst (loop fuel) <> Diverge) by (rewrite Hres; discriminate).
      destruct (Hfwd fuel Hend) as (k & [Hline | (t & -> & Ht & _)]).
      * now contradiction (Hnever k).
      * cbn in Hnone. apply negb_false_iff, Z.eqb_eq in Hnone. contradiction.
    + assert (Hend : fst (loop fuel) <> Diverge) by (rewrite Hres; discriminate).
      destruct (Hfwd fuel Hend) as (k & [Hline | (t & -> & Ht & _)]).
      * now contradiction (Hnever k).
      * cbn in Hnone. apply negb_false_iff, Z.eqb_eq in Hnone. contradiction.
Qed.
End Termination.

Lemma polling_terminates_iff_witness :
  let marker := completion_marker "echo hello" in
  let loop := fun fuel => poll_loop demo fuel 1 "echo hello" marker (Some 600%Z) (tick 1) "" fresh in
  let output := buffer_after demo (polls fresh) "" in
  let exceeded := fun k =>
    exists t, Some 600%Z = Some t /\ t <> 0%Z
              /\ elapsed_gt (clock demo (clock_reads fresh + k)) (tick 1) t = true in
  ((exists fuel, fst (loop fuel) <> Diverge)
   <-> (exists k, on_own_line marker (output k) \/ exceeded k))
  /\ (forall fuel, fst (loop fuel) <> Diverge -> exists buffer, fst (loop fuel) = Ret buffer)
  /\ (truthy_int (Some 600%Z) = false ->
      (forall k, ~ on_own_line marker (output k)) ->
      forall fuel, fst (loop fuel) = Diverge).
Proof.
  apply (polling_terminates_iff demo 1 "echo hello" (Some 600%Z) (tick 1) fresh).
  intros k name. cbn. destruct k as [|[|[|k]]]; discriminate.
Defined.

(** On a channel that stays silent, with no timeout, the loop of [echo hello]
    outlasts every bound. *)
Example polling_forever (fuel : nat) :
  fst (poll_loop (calm "/usr/bin/screen" (fun _ => NotReady) tick) fuel 1 "echo hello"
                 (completion_marker "echo hello") None (tick 1) "" fresh)
  = Diverge.
Proof.
  refine (proj2 (proj2 (polling_terminates_iff
                          (calm "/usr/bin/screen" (fun _ => NotReady) tick)
                          1 "echo hello" None (tick 1) fresh _)) eq_refl _ fuel).
  - intros k name. discriminate.
  - intros k Hline.
    apply (scan_word_iff _ _ (completion_marker_word "echo hello")) in Hline.
    assert (Hout : buffer_after (calm "/usr/bin/screen" (fun _ => NotReady) tick)
                                (polls fresh) "" k = "").
    { clear Hline. induction k as [|k IH]; [reflexivity|].
      cbn [buffer_after]. rewrite IH. reflexivity. }
    rewrite Hout in Hline.
    rewrite (scan_empty _ (completion_marker_word "echo hello")) in Hline.
    discriminate Hline.
Qed.

(** ** The timeout *)

Section Timeout.
Context {T : Type} `{Clock T}.
Variable env : Env T.

Lemma bind_eq {A B : Type} (m : M A) (k : A -> M B) w a w1 :
  m w = (Ret a, w1) -> bind m k w = k a w1.
Proof. unfold bind. now intros ->. Qed.

Lemma connect_ok self w :
  on_connect env (connects w) = None ->
  connect env self w
  = (Ret (connects w),
     {| trace := trace w ++ [Connect (connects w) (public_ip_address (instance self))
                                     (user self) (key_filename_of self)];
        connects := S (connects w); sends := sends w;
        polls := polls w; clock_reads := clock_reads w |}).
Proof. unfold connect. now intros ->. Qed.

Lemma exec_command_ok c command timeout get_pty w out err :
  on_exec env c command = inr (out, err) ->
  exec_command env c command timeout get_pty w
  = (Ret {| stdout := out; stderr := err |}, log (Exec c command timeout get_pty) w).
Proof. unfold exec_command. now intros ->. Qed.

Lemma shell_ok self c w :
  on_shell env c = None ->
  shell env self c w
  = (Ret c, log (Shell c (fst (terminal_size env)) (snd (terminal_size env))) w).
Proof. unfold shell. destruct (terminal_size env) as [tw th]. now intros ->. Qed.

Lemma send_ok ch data w :
  on_send env (sends w) = None ->
  send env ch data w
  = (Ret tt, {| trace := trace w ++ [Send ch data]; connects := connects w;
                sends := S (sends w); polls := polls w;
                clock_reads := clock_reads w |}).
Proof. unfold send. now intros ->. Qed.

Lemma run_single_ok self command timeout get_pty w out err :
  on_connect env (connects w) = None ->
  on_exec env (connects w) command = inr (out, err) ->
  run_single env self command timeout get_pty w
  = (Ret {| stdout := out; stderr := err |},
     {| trace := trace w
                 ++ [Connect (connects w) (public_ip_address (instance self))
                             (user self) (key_filename_of self);
                     Exec (connects w) command timeout get_pty];
        connects := S (connects w); sends := sends w;
        polls := polls w; clock_reads := clock_reads w |}).
Proof.
  intros Hc Hx. unfold run_single.
  rewrite (bind_eq _ _ _ _ _ (connect_ok self w Hc)).
  rewrite (exec_command_ok _ _ _ _ _ _ _ Hx). unfold log. cbn.
  now rewrite <- app_assoc.
Qed.

Lemma run_in_screen_polls self command timeout terminate fuel w :
  starts_polling env w ->
  run_in_screen env self command false timeout terminate fuel w
  = finish_polling (S (connects w))
      (poll_loop env fuel (S (connects w)) command (completion_marker command) timeout
                 (clock env (S (clock_reads w))) ""
                 (polling_world env self command terminate w)).
Proof.
  intros (Hc0 & (out & err & Hx & Hfound) & Hc1 & Hsh & Hs0 & Hs1 & Hs2).
  unfold run_in_screen.
  rewrite (bind_eq _ _ _ _ _ (run_single_ok self "which screen" None false w out err Hc0 Hx)).
  cbn [stdout]. rewrite Hfound. cbn [negb].
  unfold screen_session. cbv zeta.
  erewrite bind_eq; [|apply connect_ok; exact Hc1].
  unfold try_except, logger_info, sleep, close. rewrite bind_emit.
  erewrite bind_eq; [|apply shell_ok; exact Hsh].
  rewrite bind_time_time.
  erewrite bind_eq; [|apply send_ok; exact Hs0].
  rewrite bind_emit, send_command_line.
  erewrite bind_eq; [|apply send_ok; exact Hs1].
  erewrite bind_eq; [|apply send_ok; exact Hs2].
  rewrite bind_time_time.
  cbn [trace connects sends polls clock_reads log].
  unfold bind at 1, polling_world, finish_polling.
  rewrite <- !app_assoc. cbn [app].
  set (r := poll_loop _ _ _ _ _ _ _ _ _).
  destruct r as [[buffer|e|] w2]; reflexivity.
Qed.

Lemma closes_app c (a b : list event) : closes c (a ++ b) = closes c a + closes c b.
Proof. unfold closes. now rewrite filter_app, length_app. Qed.

Lemma closes_poll_events c (evs : list event) :
  Forall (fun e => is_poll_event e = true) evs -> closes c evs = 0.
Proof.
  induction 1 as [|e evs He _ IH]; [reflexivity|].
  destruct e; try discriminate; exact IH.
Qed.

(** C6.  Take a run of [run_in_screen] without [detach], with a timeout [t]
    other than 0, in a world that lets it come to the polling loop and whose
    channel does not raise.  Let pass [k] be the first at which the elapsed
    time exceeds [t], the marker not having come on a line of its own by
    then.  With a bound above [k] the run returns, it does not raise: its
    result is the output accumulated up to that pass, in both fields; the
    warning of line 157 has been logged; the connection of the session has
    been closed once, as the last thing done. *)
Theorem timeout_returns_partial_output self command terminate t fuel w k :
  let marker := completion_marker command in
  let c1 := S (connects w) in
  let start := clock env (S (clock_reads w)) in
  let output := buffer_after env (polls w) "" in
  let exceeded := fun j => elapsed_gt (clock env (S (S (clock_reads w)) + j)) start t in
  t <> 0%Z ->
  starts_polling env w ->
  quiet env (polls w) ->
  (forall j, j <= k -> ~ on_own_line marker (output (S j))) ->
  (forall j, j < k -> exceeded j = false) ->
  exceeded k = true ->
  k < fuel ->
  exists w',
    run_in_screen env self command false (Some t) terminate fuel w
    = (Ret {| stdout := output (S k); stderr := output (S k) |}, w')
    /\ In (LogWarning (chr LF ++ "Timeout waiting for command: " ++ command)) (trace w')
    /\ closes c1 (trace w') = S (closes c1 (trace w))
    /\ exists before, trace w' = (before ++ [Close c1])%list.
Proof.
  intros marker c1 start output exceeded Ht Hstart Hquiet Hnomarker Hbefore Hk Hfuel.
  pose proof (completion_marker_word command) as Hword. fold marker in Hword.
  rewrite (run_in_screen_polls self command (Some t) terminate fuel w Hstart).
  set (w0 := polling_world env self command terminate w).
  assert (Htruthy : truthy_int (Some t) = true)
    by (cbn; now apply negb_true_iff, Z.eqb_neq).
  assert (Hfound : forall j, j <= k -> found_at env (polls w0) marker "" j = false).
  { intros j Hj. destruct (found_at env (polls w0) marker "" j) eqn:Hf; [|reflexivity].
    apply found_at_scan, (scan_word_iff _ _ Hword) in Hf.
    now contradiction (Hnomarker j Hj). }
  assert (Hexp : forall j, expired_at env (clock_reads w0) (Some t) start j = exceeded j).
  { intros j. unfold expired_at. now rewrite Htruthy. }
  destruct (poll_loop_stops env c1 command marker (Some t) start k (fuel - S k) "" w0)
    as (w2 & Hloop & Hwarn).
  - exact Hquiet.
  - intros j Hj. unfold stops_at. rewrite (Hfound j), Hexp; [|lia]. now apply Hbefore.
  - unfold stops_at. rewrite Hexp, Hk. apply orb_true_r.
  - replace (S k + (fuel - S k)) with fuel in Hloop by lia.
    fold c1 marker start. rewrite Hloop. cbn [finish_polling].
    exists (log (Close c1) w2). split; [reflexivity|].
    apply poll_loop_events in Hloop as (evs & Htr & Hev & _).
    cbn [log trace]. split; [|split].
    + apply in_or_app. left. apply Hwarn. now apply Hfound.
    + rewrite Htr. unfold w0, polling_world. cbn [trace].
      rewrite !closes_app, (closes_poll_events c1 evs Hev).
      unfold closes at 2 3. cbn [filter is_close]. rewrite Nat.eqb_refl.
      cbn [List.length]. lia.
    + now exists (trace w2).
Qed.
End Timeout.

Lemma timeout_returns_partial_output_witness :
  let marker := completion_marker "echo hello" in
  let c1 := S (connects fresh) in
  let start := clock stalled (S (clock_reads fresh)) in
  let output := buffer_after stalled (polls fresh) "" in
  exists w',
    run_in_screen stalled (host RUNNING) "echo hello" false (Some 3%Z) true 10 fresh
    = (Ret {| stdout := output 4; stderr := output 4 |}, w')
    /\ In (LogWarning (chr LF ++ "Timeout waiting for command: " ++ "echo hello")) (trace w')
    /\ closes c1 (trace w') = S (closes c1 (trace fresh))
    /\ exists before, trace w' = (before ++ [Close c1])%list.
Proof.
  apply (timeout_returns_partial_output stalled (host RUNNING) "echo hello" true 3%Z 10 fresh 3).
  - discriminate.
  - unfold starts_polling. cbn. repeat split; try reflexivity.
    exists "/usr/bin/screen", "". split; reflexivity.
  - intros j name. cbn. destruct j; discriminate.
  - intros j Hj Hline.
    apply (scan_word_iff _ _ (completion_marker_word "echo hello")) in Hline.
    destruct j as [|[|[|[|j]]]]; [vm_compute in Hline; discriminate .. | lia].
  - intros j Hj. destruct j as [|[|[|j]]]; [vm_compute; reflexivity .. | lia].
  - vm_compute. reflexivity.
  - lia.
Defined.

Example timeout_outcome :
  fst (run_in_screen stalled (host RUNNING) "echo hello" false (Some 3%Z) true 10 fresh)
  = Ret {| stdout := "hello" ++ chr LF; stderr := "hello" ++ chr LF |}.
Proof. vm_compute. reflexivity. Qed.

(** ** The connection of the session is closed on every way out *)





Section Closing.
Context {T : Type} `{Clock T}.
Variable env : Env T.








End Closing.

(** * Further properties of the code *)

Lemma length_append_string (a b : string) : length (a ++ b) = length a + length b.
Proof. induction a as [|x a IH]; simpl; [reflexivity | now rewrite IH]. Qed.


(** ** The hash in the session name and in the marker *)

(** X1.  The slice [command_hash[:20]] of line 120 cuts nothing off: the
    hash has twelve characters, all of them hexadecimal digits, and the
    completion marker is [CMD_COMPLETED_] followed by the same twelve
    characters that the session name carries, 26 characters in all. *)
Theorem marker_embeds_whole_hash (command : string) :
  length (command_hash command) = 12
  /\ Forall (fun c => In c MD5.hex_digits) (chars (command_hash command))
  /\ completion_marker command = "CMD_COMPLETED_" ++ command_hash command
  /\ length (completion_marker command) = 26.
Proof.
  split; [apply command_hash_length|]. split; [|split].
  - unfold command_hash, take, MD5.hexdigest.
    generalize (MD5.digest (MD5.bytes_of command)). intros bytes.
    assert (Hall : Forall (fun c => In c MD5.hex_digits)
                          (flat_map MD5.hex_byte bytes)).
    { induction bytes as [|b bs IH]; [constructor|]. cbn [flat_map MD5.hex_byte app].
      assert (Hd : forall n, In (MD5.hex_digit n) MD5.hex_digits).
      { intros n. unfold MD5.hex_digit. apply nth_In.
        assert (0 <= n mod 16 < 16)%Z by (apply Z.mod_pos_bound; lia).
        change (List.length MD5.hex_digits) with 16. lia. }
      constructor; [apply Hd|]. constructor; [apply Hd | exact IH]. }
    revert Hall. generalize (flat_map MD5.hex_byte bytes). intros l Hl.
    generalize 12. revert Hl. induction l as [|c l IH]; intros Hl n.
    + destruct n; constructor.
    + inversion Hl; subst. destruct n; cbn; [constructor|].
      constructor; [assumption|]. now apply IH.
  - apply completion_marker_eq.
  - rewrite completion_marker_eq, length_append_string, command_hash_length. reflexivity.
Qed.

Lemma append_inv_length (a b x y : string) :
  length a = length b -> a ++ x = b ++ y -> a = b /\ x = y.
Proof.
  revert b. induction a as [|c a IH]; intros [|d b] Hlen Heq; try discriminate.
  - now split.
  - cbn in Heq. injection Heq as -> Heq. injection Hlen as Hlen.
    destruct (IH b Hlen Heq) as [-> ->]. now split.
Qed.

(** X2.  Two sessions started at different readings of the clock have
    different names, whatever their commands, the same or not: the hash
    before the reading always has twelve characters, so that the name
    determines the text of the reading, and with it the reading where its
    text determines it, as the text of a float does. *)
Theorem session_names_differ {T : Type} `{Clock T} (command1 command2 : string)
        (t1 t2 : T) :
  (forall a b : T, time_str a = time_str b -> a = b) ->
  t1 <> t2 ->
  screen_name command1 t1 <> screen_name command2 t2.
Proof.
  intros Hinj Hne Heq. apply Hne, Hinj. unfold screen_name in Heq.
  apply append_inv_head in Heq.
  apply append_inv_length in Heq as [_ Heq].
  - now apply append_inv_head in Heq.
  - now rewrite !command_hash_length.
Qed.

Lemma session_names_differ_witness :
  screen_name "echo hello" (tick 0) <> screen_name "make" (tick 1).
Proof.
  apply (session_names_differ "echo hello" "make" (tick 0) (tick 1) seconds_time_str_inj).
  discriminate.
Defined.

(** ** The typed line is not taken for the completion *)

Lemma count_char_append (c : ascii) (a b : string) :
  count_char c (a ++ b) = count_char c a + count_char c b.
Proof. induction a as [|d a IH]; cbn; [reflexivity | rewrite IH; lia]. Qed.

Lemma count_char_word (m : string) : word m -> count_char LF m = 0.
Proof.
  unfold word. induction m as [|c m IH]; intros Hm; [reflexivity|].
  inversion Hm as [|? ? Hc Hm']; subst. cbn [count_char].
  rewrite (IH Hm').
  destruct (Ascii.eqb_spec LF c) as [<- | _]; [discriminate | reflexivity].
Qed.

Lemma count_char_line_break (nl : string) : line_break nl -> count_char LF nl = 1.
Proof. now intros [-> | ->]. Qed.

(** The scan needs two line breaks in the buffer. *)
Lemma on_own_line_two_line_breaks (m buffer : string) :
  on_own_line m buffer -> 2 <= count_char LF buffer.
Proof.
  intros (pre & nl1 & nl2 & post & H1 & H2 & ->).
  rewrite !count_char_append, (count_char_line_break nl1 H1),
    (count_char_line_break nl2 H2). lia.
Qed.

(** X3.  The line that [run_in_screen] types into the session carries the
    marker between quotes.  When the terminal echoes that line, after a
    prompt, the scan does not take it for the completion: for a command and
    a prompt without line break, the echoed line with its line break does
    not satisfy the test of line 152. *)
Theorem typed_line_is_not_completion (prompt command nl : string) (terminate : bool) :
  count_char LF prompt = 0 ->
  count_char LF command = 0 ->
  line_break nl ->
  scan (prompt ++ command_line command terminate ++ nl) (completion_marker command)
  = false.
Proof.
  intros Hprompt Hcommand Hnl.
  pose proof (completion_marker_word command) as Hword.
  destruct (scan _ _) eqn:Hscan; [|reflexivity].
  apply (scan_word_iff _ _ Hword), on_own_line_two_line_breaks in Hscan.
  unfold command_line in Hscan.
  rewrite !count_char_append, Hprompt, Hcommand, (count_char_word _ Hword),
    (count_char_line_break nl Hnl) in Hscan.
  destruct terminate; cbn in Hscan; lia.
Qed.

Lemma typed_line_is_not_completion_witness :
  scan ("[ec2-user@ip ~]$ " ++ command_line "echo hello" true ++ String CR (chr LF))
       (completion_marker "echo hello")
  = false.
Proof.
  apply (typed_line_is_not_completion "[ec2-user@ip ~]$ " "echo hello"
           (String CR (chr LF)) true).
  - reflexivity.
  - reflexivity.
  - now right.
Defined.

(** ** A timeout of 0 *)

Lemma bind_ext {A B : Type} (m : M A) (k1 k2 : A -> M B) w :
  (forall a w1, k1 a w1 = k2 a w1) -> bind m k1 w = bind m k2 w.
Proof.
  intros Hk. unfold bind. destruct (m w) as [[a|e|] w1]; [apply Hk | reflexivity ..].
Qed.

Lemma bind_ext_head {A B : Type} (m1 m2 : M A) (k : A -> M B) w :
  m1 w = m2 w -> bind m1 k w = bind m2 k w.
Proof. unfold bind. now intros ->. Qed.

Lemma try_except_ext {A : Type} (m1 m2 : M A) (h : exn -> M A) w :
  m1 w = m2 w -> try_except m1 h w = try_except m2 h w.
Proof. unfold try_except. now intros ->. Qed.

Section ZeroTimeout.
Context {T : Type} `{Clock T}.
Variable env : Env T.

Lemma poll_loop_timeout_0 fuel channel command marker (start : T) : forall buffer w,
  poll_loop env fuel channel command marker (Some 0%Z) start buffer w
  = poll_loop env fuel channel command marker None start buffer w.
Proof.
  induction fuel as [|fuel IH]; intros buffer w; [reflexivity|].
  cbn [poll_loop].
  change (poll_iteration env channel command marker (Some 0%Z) start buffer)
    with (poll_iteration env channel command marker None start buffer).
  apply bind_ext. intros [stop b1] w1. destruct stop; [reflexivity|].
  apply bind_ext. intros _ w2. apply IH.
Qed.

(** X4.  A timeout of 0 is no timeout: [run_in_screen] with [timeout=0] does
    in every world what it does with [timeout=None], pass for pass; the test
    of line 156 takes 0 for unset, so that the loop is not cut short at its
    first pass but goes on until the marker comes. *)
Theorem zero_timeout_is_no_timeout self command detach terminate fuel w :
  run_in_screen env self command detach (Some 0%Z) terminate fuel w
  = run_in_screen env self command detach None terminate fuel w.
Proof.
  unfold run_in_screen. apply bind_ext. intros probe w1.
  destruct (negb (contains "screen" (stdout probe))); [reflexivity|].
  unfold screen_session. cbv zeta. apply bind_ext. intros client w2.
  apply try_except_ext.
  do 8 (apply bind_ext; intros ? ?).
  apply bind_ext_head. destruct detach; [reflexivity|].
  apply poll_loop_timeout_0.
Qed.

End ZeroTimeout.

(** With a timeout of 0 and a silent channel the loop outlasts a bound that
    a timeout of 1 second does not. *)
Example zero_timeout_goes_on :
  fst (run_in_screen stalled (host RUNNING) "echo hello" false (Some 0%Z) true 10 fresh)
  = Diverge
  /\ fst (run_in_screen stalled (host RUNNING) "echo hello" false (Some 1%Z) true 10 fresh)
     = Ret {| stdout := "hello" ++ chr LF; stderr := "hello" ++ chr LF |}.
Proof. split; vm_compute; reflexivity. Qed.

(** ** [run] never enters the polling loop *)






Section Settles.
Context {T : Type} `{Clock T}.
Variable env : Env T.










(** X6.  With [detach], [run] makes no use of [timeout] and of [get_pty]:
    the 600 seconds that line 185 puts in for an unset timeout change
    nothing, the detach branch never tests the time.  Without [detach],
    [run] makes no use of [terminate]. *)
Theorem run_unused_arguments self command terminate fuel w
        get_pty1 get_pty2 timeout1 timeout2 fuel2 terminate2 get_pty timeout :
  run env self command get_pty1 true terminate timeout1 fuel w
  = run env self command get_pty2 true terminate timeout2 fuel2 w
  /\ run env self command get_pty false terminate timeout fuel w
     = run env self command get_pty false terminate2 timeout fuel2 w.
Proof. split; reflexivity. Qed.
End Settles.

(** ** The one-shot path *)

(** X7.  On a running instance and without [detach], [run] is one exchange
    on one new connection: it connects, runs the command with the caller's
    timeout and pty flag, and returns the two texts as read; nothing is sent
    on a channel and the clock is not read.  It raises what [connect] or the
    command raises; in the latter case, as on return, the connection is left
    open. *)
Theorem one_shot_exchange {T : Type} `{Clock T} (env : Env T) self command
        get_pty terminate timeout fuel w r w' :
  state (instance self) = RUNNING ->
  run env self command get_pty false terminate timeout fuel w = (r, w') ->
  let c := connects w in
  let opened := Connect c (public_ip_address (instance self)) (user self)
                        (key_filename_of self) in
  sends w' = sends w /\ clock_reads w' = clock_reads w /\ polls w' = polls w
  /\ ((exists out,
         r = Ret out /\ on_exec env c command = inr (stdout out, stderr out)
         /\ trace w' = (trace w ++ [opened; Exec c command timeout get_pty])%list)
      \/ (exists name,
            r = Raise (LibraryError name) /\ on_connect env c = Some name
            /\ trace w' = (trace w ++ [ConnectFailed c])%list)
      \/ (exists name,
            r = Raise (LibraryError name) /\ on_exec env c command = inl name
            /\ trace w' = (trace w ++ [opened])%list)).
Proof.
  intros Hstate. unfold run. rewrite Hstate. cbn [InstanceStatus_eqb negb].
  unfold run_single, bind, connect, exec_command.
  destruct (on_connect env (connects w)) as [name|] eqn:Hc.
  - intros Heq. injection Heq as <- <-. cbn. repeat split.
    right. left. now exists name.
  - cbn [connects log]. destruct (on_exec env (connects w) command) as [name|[o e]] eqn:Hx.
    + intros Heq. injection Heq as <- <-. cbn. repeat split.
      right. right. now exists name.
    + intros Heq. injection Heq as <- <-. cbn. repeat split.
      left. eexists. repeat split. now rewrite <- app_assoc.
Qed.

Lemma one_shot_exchange_witness :
  let ran := run demo (host RUNNING) "echo hello" false false true None 0 fresh in
  sends (snd ran) = sends fresh /\ clock_reads (snd ran) = clock_reads fresh
  /\ polls (snd ran) = polls fresh
  /\ ((exists out,
         fst ran = Ret out
         /\ on_exec demo (connects fresh) "echo hello" = inr (stdout out, stderr out)
         /\ trace (snd ran)
            = (trace fresh
               ++ [Connect (connects fresh) (public_ip_address (instance (host RUNNING)))
                           (user (host RUNNING)) (key_filename_of (host RUNNING));
                   Exec (connects fresh) "echo hello" None false])%list)
      \/ (exists name,
            fst ran = Raise (LibraryError name)
            /\ on_connect demo (connects fresh) = Some name
            /\ trace (snd ran) = (trace fresh ++ [ConnectFailed (connects fresh)])%list)
      \/ (exists name,
            fst ran = Raise (LibraryError name)
            /\ on_exec demo (connects fresh) "echo hello" = inl name
            /\ trace (snd ran)
               = (trace fresh
                  ++ [Connect (connects fresh) (public_ip_address (instance (host RUNNING)))
                              (user (host RUNNING)) (key_filename_of (host RUNNING))])%list)).
Proof.
  intros ran.
  refine (one_shot_exchange demo (host RUNNING) "echo hello" false true None 0 fresh
            (fst ran) (snd ran) eq_refl _).
  vm_compute. reflexivity.
Defined.

(** ** The loop, pass by pass, with its trace *)

Section Advance.
Context {T : Type} `{Clock T}.
Variable env : Env T.
Variables (channel : nat) (command marker : string) (timeout : option Z) (start : T).

Lemma loop_events_shift p k :
  loop_events env channel p (S k)
  = (pass_events channel (on_poll env p) ++ [Sleep 100]
     ++ loop_events env channel (S p) k)%list.
Proof.
  induction k as [|k IH].
  - cbn. now rewrite Nat.add_0_r.
  - change (loop_events env channel p (S (S k)))
      with (loop_events env channel p (S k)
            ++ pass_events channel (on_poll env (p + S k)) ++ [Sleep 100])%list.
    rewrite IH. cbn [loop_events].
    replace (p + S k) with (S p + k) by lia.
    now rewrite <- !app_assoc.
Qed.

(** A pass that neither raises nor stops. *)
Lemma poll_iteration_goes_on b w :
  (forall name, on_poll env (polls w) <> PollRaises name) ->
  stops_at env (polls w) (clock_reads w) marker timeout start b 0 = false ->
  exists w1,
    poll_iteration env channel command marker timeout start b w
    = (Ret (false, b ++ chunk_at env (polls w) 0), w1)
    /\ polls w1 = S (polls w)
    /\ connects w1 = connects w /\ sends w1 = sends w
    /\ (truthy_int timeout = true -> clock_reads w1 = S (clock_reads w))
    /\ trace w1 = (trace w ++ pass_events channel (on_poll env (polls w)))%list.
Proof.
  intros Hquiet. unfold stops_at, found_at, chunk_at. cbn [buffer_after].
  unfold chunk_at. rewrite !Nat.add_0_r.
  unfold poll_iteration, bind, poll.
  destruct (on_poll env (polls w)) as [|chunk|name] eqn:Hpoll.
  - rewrite timed_out_run. cbn [clock_reads orb polls]. intros ->.
    destruct (truthy_int timeout);
      (eexists; split; [cbn; now rewrite append_nil_r|]);
      cbn; rewrite app_nil_r; repeat split; congruence.
  - unfold stdout_write, emit. intros Hstop. apply orb_false_iff in Hstop as [-> Hexp].
    rewrite timed_out_run. cbn [clock_reads orb log polls]. rewrite Hexp.
    destruct (truthy_int timeout);
      (eexists; split; [reflexivity|]);
      cbn; rewrite <- app_assoc; repeat split; congruence.
  - now contradiction (Hquiet name).
Qed.

(** [k] passes that neither raise nor stop. *)
Lemma poll_loop_advance k : forall b w,
  (forall j, j < k ->
     (forall name, on_poll env (polls w + j) <> PollRaises name)
     /\ stops_at env (polls w) (clock_reads w) marker timeout start b j = false) ->
  exists wk,
    (forall fuel,
       poll_loop env (k + fuel) channel command marker timeout start b w
       = poll_loop env fuel channel command marker timeout start
                   (buffer_after env (polls w) b k) wk)
    /\ polls wk = polls w + k
    /\ connects wk = connects w /\ sends wk = sends w
    /\ (truthy_int timeout = true -> clock_reads wk = clock_reads w + k)
    /\ trace wk = (trace w ++ loop_events env channel (polls w) k)%list.
Proof.
  induction k as [|k IH]; intros b w Hgo.
  - exists w. cbn. rewrite app_nil_r, !Nat.add_0_r. repeat split; auto.
  - destruct (Hgo 0 (Nat.lt_0_succ k)) as [Hq0 Hs0]. rewrite Nat.add_0_r in Hq0.
    destruct (poll_iteration_goes_on b w Hq0 Hs0)
      as (w1 & Hit & Hp & Hc & Hs & Hclk & Htr).
    destruct (IH (b ++ chunk_at env (polls w) 0) (log (Sleep 100) w1))
      as (wk & Hloop & Hpk & Hck & Hsk & Hclkk & Htrk).
    + intros j Hj. cbn [polls clock_reads log]. rewrite Hp.
      destruct (Hgo (S j)) as [Hq Hst]; [lia|]. split.
      * replace (S (polls w) + j) with (polls w + S j) by lia. exact Hq.
      * now rewrite (stops_at_shift env marker timeout start
                       (polls w) (clock_reads w) (clock_reads w1) b j Hclk).
    + cbn [polls clock_reads connects sends trace log] in *.
      exists wk. split; [|repeat split].
      * intros fuel. change (S k + fuel) with (S (k + fuel)). cbn [poll_loop].
        unfold bind at 1. rewrite Hit. unfold bind, sleep, emit.
        rewrite Hloop, Hp. now rewrite <- buffer_after_shift.
      * rewrite Hpk, Hp. lia.
      * congruence.
      * congruence.
      * intros Htruthy. rewrite (Hclkk Htruthy), (Hclk Htruthy). lia.
      * rewrite Htrk, Htr, Hp, loop_events_shift, <- !app_assoc. reflexivity.
Qed.
End Advance.

(** ** Failures in the session *)

Section Failures.
Context {T : Type} `{Clock T}.
Variable env : Env T.

(** X8.  When the probe has found [screen] and the connection of the
    session cannot be opened, [run_in_screen] raises what [connect] raised
    and does nothing else: [client] is still [None] at line 168, so that
    nothing is closed; no shell channel is opened and nothing is sent. *)
Theorem session_connect_failure self command detach timeout terminate fuel w out err name :
  on_connect env (connects w) = None ->
  on_exec env (connects w) "which screen" = inr (out, err) ->
  contains "screen" out = true ->
  on_connect env (S (connects w)) = Some name ->
  run_in_screen env self command detach timeout terminate fuel w
  = (Raise (LibraryError name),
     {| trace := trace w
                 ++ [ Connect (connects w) (public_ip_address (instance self))
                              (user self) (key_filename_of self);
                      Exec (connects w) "which screen" None false;
                      ConnectFailed (S (connects w)) ];
        connects := S (S (connects w)); sends := sends w;
        polls := polls w; clock_reads := clock_reads w |}).
Proof.
  intros Hc0 Hx Hfound Hc1. unfold run_in_screen.
  rewrite (bind_eq _ _ _ _ _
             (run_single_ok env self "which screen" None false w out err Hc0 Hx)).
  cbn [stdout]. rewrite Hfound. cbn [negb].
  unfold screen_session. cbv zeta. unfold bind at 1, connect.
  cbn [connects trace sends polls clock_reads]. rewrite Hc1.
  unfold log. cbn. now rewrite <- app_assoc.
Qed.

Lemma not_stopped p c marker timeout (start : T) j :
  word marker ->
  ~ on_own_line marker (buffer_after env p "" (S j)) ->
  expired_at env c timeout start j = false ->
  stops_at env p c marker timeout start "" j = false.
Proof.
  intros Hword Hline Hexp. unfold stops_at. rewrite Hexp, orb_false_r.
  destruct (found_at env p marker "" j) eqn:Hf; [|reflexivity].
  apply found_at_scan, (scan_word_iff _ _ Hword) in Hf. contradiction.
Qed.

(** X9.  When the channel raises in a pass of the polling loop, no pass
    before having met the marker or the timeout, [run_in_screen] closes the
    connection of the session and raises that same exception: the trace is
    the one of the passes made, then the close, and no warning is logged. *)
Theorem channel_failure_closes_and_reraises self command timeout terminate fuel w k name :
  let marker := completion_marker command in
  let c1 := S (connects w) in
  let start := clock env (S (clock_reads w)) in
  let output := buffer_after env (polls w) "" in
  let exceeded := expired_at env (S (S (clock_reads w))) timeout start in
  starts_polling env w ->
  (forall j, j < k ->
     (forall n, on_poll env (polls w + j) <> PollRaises n)
     /\ ~ on_own_line marker (output (S j))
     /\ exceeded j = false) ->
  on_poll env (polls w + k) = PollRaises name ->
  k < fuel ->
  exists w',
    run_in_screen env self command false timeout terminate fuel w
    = (Raise (LibraryError name), w')
    /\ trace w'
       = (trace (polling_world env self command terminate w)
          ++ loop_events env c1 (polls w) k ++ [Close c1])%list.
Proof.
  intros marker c1 start output exceeded Hstart Hgo Hraise Hfuel.
  pose proof (completion_marker_word command) as Hword. fold marker in Hword.
  rewrite (run_in_screen_polls env self command timeout terminate fuel w Hstart).
  set (w0 := polling_world env self command terminate w).
  destruct (poll_loop_advance env c1 command marker timeout start k "" w0)
    as (wk & Hloop & Hpk & _ & _ & _ & Htrk).
  - intros j Hj. destruct (Hgo j Hj) as (Hq & Hline & Hexp). split; [exact Hq|].
    now apply not_stopped.
  - fold c1 marker start.
    replace fuel with (k + S (fuel - S k)) by lia. rewrite Hloop.
    cbn [poll_loop]. unfold bind at 1, poll_iteration. unfold bind at 1, poll.
    rewrite Hpk. change (polls w0) with (polls w). rewrite Hraise.
    cbn [finish_polling]. eexists. split; [reflexivity|].
    cbn [log trace]. rewrite Htrk. now rewrite <- app_assoc.
Qed.
End Failures.

Lemma session_connect_failure_witness :
  run_in_screen refusing (host RUNNING) "make" false (Some 600%Z) true 10 fresh
  = (Raise (LibraryError "SSHException"),
     {| trace := trace fresh
                 ++ [ Connect (connects fresh) (public_ip_address (instance (host RUNNING)))
                              (user (host RUNNING)) (key_filename_of (host RUNNING));
                      Exec (connects fresh) "which screen" None false;
                      ConnectFailed (S (connects fresh)) ];
        connects := S (S (connects fresh)); sends := sends fresh;
        polls := polls fresh; clock_reads := clock_reads fresh |}).
Proof.
  apply (session_connect_failure refusing (host RUNNING) "make" false (Some 600%Z) true 10
           fresh "/usr/bin/screen" ""); reflexivity.
Defined.

Lemma channel_failure_closes_and_reraises_witness :
  exists w',
    run_in_screen breaking (host RUNNING) "echo hello" false (Some 600%Z) true 10 fresh
    = (Raise (LibraryError "socket.error"), w')
    /\ trace w'
       = (trace (polling_world breaking (host RUNNING) "echo hello" true fresh)
          ++ loop_events breaking (S (connects fresh)) (polls fresh) 1
          ++ [Close (S (connects fresh))])%list.
Proof.
  apply (channel_failure_closes_and_reraises breaking (host RUNNING) "echo hello"
           (Some 600%Z) true 10 fresh 1 "socket.error").
  - unfold starts_polling. cbn. repeat split; try reflexivity.
    exists "/usr/bin/screen", "". split; reflexivity.
  - intros j Hj. destruct j as [|j]; [|lia]. split; [discriminate|]. split.
    + intros Hline.
      apply (scan_word_iff _ _ (completion_marker_word "echo hello")) in Hline.
      vm_compute in Hline. discriminate Hline.
    + vm_compute. reflexivity.
  - reflexivity.
  - lia.
Defined.

(** ** The marker *)

Section Success.
Context {T : Type} `{Clock T}.
Variable env : Env T.

Lemma loop_events_no_warning channel p k msg :
  ~ In (LogWarning msg) (loop_events env channel p k).
Proof.
  induction k as [|k IH]; cbn [loop_events]; [intros []|].
  intros Hin. apply in_app_or in Hin as [Hin | Hin]; [now apply IH|].
  apply in_app_or in Hin as [Hin | Hin].
  - destruct (on_poll env (p + k)); cbn in Hin;
      repeat (destruct Hin as [Hin | Hin]; [discriminate|]); exact Hin.
  - destruct Hin as [Hin | []]. discriminate.
Qed.

(** X10.  When pass [k] of the polling loop is the first at which the
    accumulated output holds the marker on a line of its own, no pass before
    having raised or met the timeout, [run_in_screen] returns with a bound
    above [k]: its result is the output accumulated up to and with the chunk
    of that pass, in both fields; the loop ends at that chunk, without
    reading the clock again and without the warning of the timeout, and the
    connection of the session is closed as the last thing done. *)
Theorem marker_returns_output self command timeout terminate fuel w k :
  let marker := completion_marker command in
  let c1 := S (connects w) in
  let start := clock env (S (clock_reads w)) in
  let output := buffer_after env (polls w) "" in
  let exceeded := expired_at env (S (S (clock_reads w))) timeout start in
  starts_polling env w ->
  (forall j, j <= k -> forall n, on_poll env (polls w + j) <> PollRaises n) ->
  (forall j, j < k -> ~ on_own_line marker (output (S j)) /\ exceeded j = false) ->
  on_own_line marker (output (S k)) ->
  k < fuel ->
  exists w' chunk,
    on_poll env (polls w + k) = Ready chunk
    /\ run_in_screen env self command false timeout terminate fuel w
       = (Ret {| stdout := output (S k); stderr := output (S k) |}, w')
    /\ trace w'
       = (trace (polling_world env self command terminate w)
          ++ loop_events env c1 (polls w) k
          ++ [Recv c1 chunk; StdoutWrite chunk; Close c1])%list
    /\ forall msg, In (LogWarning msg) (trace w') -> In (LogWarning msg) (trace w).
Proof.
  intros marker c1 start output exceeded Hstart Hquiet Hgo Hline Hfuel.
  pose proof (completion_marker_word command) as Hword. fold marker in Hword.
  rewrite (run_in_screen_polls env self command timeout terminate fuel w Hstart).
  set (w0 := polling_world env self command terminate w).
  destruct (poll_loop_advance env c1 command marker timeout start k "" w0)
    as (wk & Hloop & Hpk & _ & _ & _ & Htrk).
  { intros j Hj. destruct (Hgo j Hj) as (Hnl & Hexp). split; [apply Hquiet; lia|].
    now apply not_stopped. }
  assert (Hbefore : scan (output k) marker = false).
  { destruct k as [|k']; [now apply scan_empty|].
    destruct (Hgo k' (Nat.lt_succ_diag_r k')) as [Hnl _].
    destruct (scan (output (S k')) marker) eqn:Hs; [|reflexivity].
    apply (scan_word_iff _ _ Hword) in Hs. contradiction. }
  apply (scan_word_iff _ _ Hword) in Hline.
  pose proof (scan_found_at env (polls w) marker "" k Hbefore Hline) as Hfound.
  unfold found_at in Hfound.
  destruct (on_poll env (polls w + k)) as [|chunk|n] eqn:Hpoll; try discriminate.
  fold c1 marker start.
  replace fuel with (k + S (fuel - S k)) by lia. rewrite Hloop.
  cbn [poll_loop]. unfold bind at 1, poll_iteration. unfold bind at 1, poll.
  rewrite Hpk. change (polls w0) with (polls w). rewrite Hpoll.
  unfold bind at 1, stdout_write, emit.
  cbn [buffer_after] in Hfound. unfold chunk_at in Hfound. rewrite Hpoll in Hfound.
  rewrite Hfound. unfold ret at 1. unfold ret. cbn [finish_polling].
  eexists _, chunk. split; [reflexivity|]. split; [|split].
  - unfold output. cbn [buffer_after]. unfold chunk_at. rewrite Hpoll. reflexivity.
  - cbn [log trace]. rewrite Htrk. now rewrite <- !app_assoc.
  - intros msg. cbn [log trace]. rewrite Htrk. unfold w0, polling_world. cbn [trace].
    rewrite <- !app_assoc. intros Hin.
    apply in_app_or in Hin as [Hin | Hin]; [exact Hin|]. exfalso.
    apply in_app_or in Hin as [Hin | Hin].
    + cbn in Hin. repeat (destruct Hin as [Hin | Hin]; [discriminate|]). exact Hin.
    + apply in_app_or in Hin as [Hin | Hin].
      * now apply loop_events_no_warning in Hin.
      * cbn in Hin. repeat (destruct Hin as [Hin | Hin]; [discriminate|]). exact Hin.
Qed.
End Success.

Lemma marker_returns_output_witness :
  exists w' chunk,
    on_poll demo (polls fresh + 2) = Ready chunk
    /\ run_in_screen demo (host RUNNING) "echo hello" false (Some 600%Z) true 10 fresh
       = (Ret {| stdout := buffer_after demo (polls fresh) "" 3;
                 stderr := buffer_after demo (polls fresh) "" 3 |}, w')
    /\ trace w'
       = (trace (polling_world demo (host RUNNING) "echo hello" true fresh)
          ++ loop_events demo (S (connects fresh)) (polls fresh) 2
          ++ [Recv (S (connects fresh)) chunk; StdoutWrite chunk;
              Close (S (connects fresh))])%list
    /\ forall msg, In (LogWarning msg) (trace w') -> In (LogWarning msg) (trace fresh).
Proof.
  apply (marker_returns_output demo (host RUNNING) "echo hello" (Some 600%Z) true 10 fresh 2).
  - unfold starts_polling. cbn. repeat split; try reflexivity.
    exists "/usr/bin/screen", "". split; reflexivity.
  - intros j Hj n. destruct j as [|[|[|j]]]; [discriminate .. | lia].
  - intros j Hj. split.
    + intros Hline.
      apply (scan_word_iff _ _ (completion_marker_word "echo hello")) in Hline.
      destruct j as [|[|j]]; [vm_compute in Hline; discriminate Hline .. | lia].
    + destruct j as [|[|j]]; [vm_compute; reflexivity .. | lia].
  - apply (scan_word_iff _ _ (completion_marker_word "echo hello")).
    vm_compute. reflexivity.
  - lia.
Defined.

(** ** The echo on the standard output *)







Section Mirror.
Context {T : Type} `{Clock T}.
Variable env : Env T.










End Mirror.


(** ** The connection of the session *)


